(** * The real-time voice session client of [src/lib/services/rtvi.ts]

    The class [RTVIVoiceService] is embedded as a record of its private
    fields and a small monad that threads the record, an exception channel
    (JavaScript [throw]) and a log of the effects the service has on the
    outside world: callback invocations, console output, network requests,
    frames sent on the data channel and the release of platform objects.

    Platform calls whose result the source only consumes ([fetch],
    [getUserMedia], [createOffer], [JSON.parse], [crypto.randomUUID], ...)
    receive that result from the environment of the call.  Callbacks are
    caller code: the model records which ones were supplied and logs every
    invocation with its arguments; a callback returns normally and does not
    call back into the service. *)

From Stdlib Require Import String Ascii List Bool Arith Lia DecimalString.
Import ListNotations.
Local Open Scope string_scope.
Local Open Scope list_scope.

(** ** Platform values *)

(** A thrown JavaScript error object: its [name] and its [message]. *)
Record JsError := { err_name : string; err_message : string }.

(** [new Error(message)] *)
Definition Error (message : string) : JsError :=
  {| err_name := "Error"; err_message := message |}.

(** Reading a property of [null] or [undefined]. *)
Definition TypeError (message : string) : JsError :=
  {| err_name := "TypeError"; err_message := message |}.

(** The values handed to [JSON.stringify] by the source. *)
#[warnings="-register-all"]
Inductive json :=
| JNull
| JBool (b : bool)
| JString (s : string)
| JObject (fields : list (string * json)).

Record MediaStreamTrack :=
  { track_id : string; kind : string; enabled : bool }.

Record MediaStream :=
  { stream_id : string; getTracks : list MediaStreamTrack }.

Definition is_audio (t : MediaStreamTrack) : bool := kind t =? "audio".

Definition getAudioTracks (m : MediaStream) : list MediaStreamTrack :=
  filter is_audio (getTracks m).

Record HTMLAudioElement :=
  { srcObject : option string; autoplay : bool }.

Record RTCIceServer := { urls : string }.

Record RTCSessionDescription := { sd_type : string; sdp : string }.

Record RTCPeerConnection :=
  { iceServers : list RTCIceServer;
    pc_handlers : bool;
    senders : list string;
    localDescription : option RTCSessionDescription;
    remoteDescription : option RTCSessionDescription;
    iceConnectionState : string;
    connectionState : string }.

Record RTCDataChannel :=
  { label : string; dc_handlers : bool; readyState : string }.

(** [new RTCPeerConnection({ iceServers })] *)
Definition new_RTCPeerConnection (servers : list RTCIceServer)
  : RTCPeerConnection :=
  {| iceServers := servers; pc_handlers := false; senders := [];
     localDescription := None; remoteDescription := None;
     iceConnectionState := "new"; connectionState := "new" |}.

(** An HTTP response: [ok] is the Fetch standard's reading of [status]. *)
Record Response := { status : nat }.

Definition ok (r : Response) : bool :=
  ((200 <=? status r) && (status r <=? 299))%nat.

(** Template-literal rendering of a number and of a possibly missing
    string. *)
Definition show_nat (n : nat) : string :=
  NilEmpty.string_of_uint (Nat.to_uint n).

Definition show_opt (o : option string) : string :=
  match o with Some s => s | None => "undefined" end.

(** Truthiness of a string-or-missing value. *)
Definition truthy (o : option string) : bool :=
  match o with
  | Some s => negb (s =? "")
  | None => false
  end.

(** ** Interfaces of the source *)

Record RTVIConfig :=
  { cfg_serverUrl : string;
    enableMic : option bool;
    enableCam : option bool }.

(** [RTVICallbacks]: every hook is optional; [true] means supplied. *)
Record RTVICallbacks :=
  { onUserTranscript : bool;
    onBotTranscript : bool;
    onBotStartedSpeaking : bool;
    onBotStoppedSpeaking : bool;
    onUserStartedSpeaking : bool;
    onUserStoppedSpeaking : bool;
    onConnectionStateChange : bool;
    onError : bool }.

(** The default [callbacks = {}]. *)
Definition no_callbacks : RTVICallbacks :=
  {| onUserTranscript := false; onBotTranscript := false;
     onBotStartedSpeaking := false; onBotStoppedSpeaking := false;
     onUserStartedSpeaking := false; onUserStoppedSpeaking := false;
     onConnectionStateChange := false; onError := false |}.

(** [RTVIMessage]: the tag is kept as the string found on the wire, so that
    tags outside [RTVIMessageType] can be received. *)
Record MessageData :=
  { data_text : option string;
    data_final : option bool;
    data_error : option string }.

Record RTVIMessage :=
  { msg_type : string; msg_data : option MessageData }.

(** ** Effects *)

Inductive CallbackCall :=
| OnUserTranscript (text : string) (final : bool)
| OnBotTranscript (text : string)
| OnBotStartedSpeaking
| OnBotStoppedSpeaking
| OnUserStartedSpeaking
| OnUserStoppedSpeaking
| OnConnectionStateChange (state : string)
| OnError (error : JsError).

Inductive ConsoleLevel := LevelLog | LevelWarn | LevelError.

(** Console entries keep the literal first argument of the call. *)
Inductive Effect :=
| Console (level : ConsoleLevel) (message : string)
| Call (c : CallbackCall)
| Fetch (method url : string) (body : json)
| GetUserMedia (video : bool)
| TrackStop (track : string)
| AudioDetach
| ChannelClose (channel : string)
| ChannelSend (channel : string) (frame : json)
| PeerClose.

(** ** The service *)

Record Service :=
  { pc : option RTCPeerConnection;
    dc : option RTCDataChannel;
    localStream : option MediaStream;
    remoteAudio : option HTMLAudioElement;
    sessionId : option string;
    serverUrl : string;
    callbacks : RTVICallbacks;
    _connected : bool;
    accumulatedBotText : string }.

(** Field initialisers of the class: the state of [new RTVIVoiceService()]. *)
Definition new_RTVIVoiceService : Service :=
  {| pc := None; dc := None; localStream := None; remoteAudio := None;
     sessionId := None; serverUrl := ""; callbacks := no_callbacks;
     _connected := false; accumulatedBotText := "" |}.

Definition set_pc (v : option RTCPeerConnection) (s : Service) : Service :=
  {| pc := v; dc := dc s; localStream := localStream s;
     remoteAudio := remoteAudio s; sessionId := sessionId s;
     serverUrl := serverUrl s; callbacks := callbacks s;
     _connected := _connected s;
     accumulatedBotText := accumulatedBotText s |}.

Definition set_dc (v : option RTCDataChannel) (s : Service) : Service :=
  {| pc := pc s; dc := v; localStream := localStream s;
     remoteAudio := remoteAudio s; sessionId := sessionId s;
     serverUrl := serverUrl s; callbacks := callbacks s;
     _connected := _connected s;
     accumulatedBotText := accumulatedBotText s |}.

Definition set_localStream (v : option MediaStream) (s : Service) : Service :=
  {| pc := pc s; dc := dc s; localStream := v;
     remoteAudio := remoteAudio s; sessionId := sessionId s;
     serverUrl := serverUrl s; callbacks := callbacks s;
     _connected := _connected s;
     accumulatedBotText := accumulatedBotText s |}.

Definition set_remoteAudio (v : option HTMLAudioElement) (s : Service)
  : Service :=
  {| pc := pc s; dc := dc s; localStream := localStream s;
     remoteAudio := v; sessionId := sessionId s;
     serverUrl := serverUrl s; callbacks := callbacks s;
     _connected := _connected s;
     accumulatedBotText := accumulatedBotText s |}.

Definition set_sessionId (v : option string) (s : Service) : Service :=
  {| pc := pc s; dc := dc s; localStream := localStream s;
     remoteAudio := remoteAudio s; sessionId := v;
     serverUrl := serverUrl s; callbacks := callbacks s;
     _connected := _connected s;
     accumulatedBotText := accumulatedBotText s |}.

Definition set_serverUrl (v : string) (s : Service) : Service :=
  {| pc := pc s; dc := dc s; localStream := localStream s;
     remoteAudio := remoteAudio s; sessionId := sessionId s;
     serverUrl := v; callbacks := callbacks s;
     _connected := _connected s;
     accumulatedBotText := accumulatedBotText s |}.

Definition set_callbacks (v : RTVICallbacks) (s : Service) : Service :=
  {| pc := pc s; dc := dc s; localStream := localStream s;
     remoteAudio := remoteAudio s; sessionId := sessionId s;
     serverUrl := serverUrl s; callbacks := v;
     _connected := _connected s;
     accumulatedBotText := accumulatedBotText s |}.

Definition set_connected (v : bool) (s : Service) : Service :=
  {| pc := pc s; dc := dc s; localStream := localStream s;
     remoteAudio := remoteAudio s; sessionId := sessionId s;
     serverUrl := serverUrl s; callbacks := callbacks s;
     _connected := v;
     accumulatedBotText := accumulatedBotText s |}.

Definition set_accumulatedBotText (v : string) (s : Service) : Service :=
  {| pc := pc s; dc := dc s; localStream := localStream s;
     remoteAudio := remoteAudio s; sessionId := sessionId s;
     serverUrl := serverUrl s; callbacks := callbacks s;
     _connected := _connected s;
     accumulatedBotText := v |}.

(** ** The monad of service code: state, [throw], effect log *)

Inductive Completion (A : Type) :=
| Normal (a : A)
| Throw (e : JsError).
Arguments Normal {A} a.
Arguments Throw {A} e.

Definition M (A : Type) : Type :=
  Service -> Completion A * Service * list Effect.

Definition ret {A} (a : A) : M A := fun s => (Normal a, s, []).

Definition bind {A B} (m : M A) (k : A -> M B) : M B :=
  fun s =>
    match m s with
    | (Normal a, s1, t1) =>
        match k a s1 with
        | (c, s2, t2) => (c, s2, t1 ++ t2)
        end
    | (Throw e, s1, t1) => (Throw e, s1, t1)
    end.

Definition throw {A} (e : JsError) : M A := fun s => (Throw e, s, []).

(** [try { body } catch (error) { handler }] *)
Definition try_catch {A} (body : M A) (handler : JsError -> M A) : M A :=
  fun s =>
    match body s with
    | (Normal a, s1, t1) => (Normal a, s1, t1)
    | (Throw e, s1, t1) =>
        match handler e s1 with
        | (c, s2, t2) => (c, s2, t1 ++ t2)
        end
    end.

Definition get : M Service := fun s => (Normal s, s, []).

Definition modify (f : Service -> Service) : M unit :=
  fun s => (Normal tt, f s, []).

Definition emit (e : Effect) : M unit := fun s => (Normal tt, s, [e]).

Definition emit_all (es : list Effect) : M unit :=
  fun s => (Normal tt, s, es).

Declare Scope service_scope.
Delimit Scope service_scope with service.
Notation "x <- m ;; k" := (bind m (fun x => k))
  (at level 61, m at next level, right associativity) : service_scope.
Notation "m ;; k" := (bind m (fun _ => k))
  (at level 61, right associativity) : service_scope.
Local Open Scope service_scope.

Definition console (level : ConsoleLevel) (message : string) : M unit :=
  emit (Console level message).

(** [this.callbacks.hook?.(args)] *)
Definition call (hook : RTVICallbacks -> bool) (c : CallbackCall) : M unit :=
  fun s =>
    if hook (callbacks s) then (Normal tt, s, [Call c])
    else (Normal tt, s, []).

(** Projections of a run of service code. *)
Definition completion {A} (r : Completion A * Service * list Effect)
  : Completion A := fst (fst r).
Definition state_of {A} (r : Completion A * Service * list Effect)
  : Service := snd (fst r).
Definition effects {A} (r : Completion A * Service * list Effect)
  : list Effect := snd r.

(** The callback invocations among a list of effects, in order. *)
Fixpoint calls (t : list Effect) : list CallbackCall :=
  match t with
  | [] => []
  | Call c :: t' => c :: calls t'
  | _ :: t' => calls t'
  end.

(** The frames sent on the data channel among a list of effects. *)
Fixpoint frames (t : list Effect) : list json :=
  match t with
  | [] => []
  | ChannelSend _ f :: t' => f :: frames t'
  | _ :: t' => frames t'
  end.

(** ** Control-channel protocol handler *)

(** [message.data?.text], [message.data?.error] *)
Definition message_text (message : RTVIMessage) : option string :=
  match msg_data message with
  | Some d => data_text d
  | None => None
  end.

Definition message_error (message : RTVIMessage) : option string :=
  match msg_data message with
  | Some d => data_error d
  | None => None
  end.

(** [message.data.final ?? false], read once [message.data] is known to
    exist. *)
Definition message_final (message : RTVIMessage) : bool :=
  match msg_data message with
  | Some d => match data_final d with Some b => b | None => false end
  | None => false
  end.

(** [handleRTVIMessage]: the [switch] on [message.type]; a tag matching no
    [case] falls out of the [switch]. *)
Definition handleRTVIMessage (message : RTVIMessage) : M unit :=
  console LevelLog "[RTVI] Message:" ;;
  let type := msg_type message in
  if type =? "user-transcription" then
    match message_text message with
    | Some text =>
        call onUserTranscript (OnUserTranscript text (message_final message))
    | None => ret tt
    end
  else if (type =? "bot-llm-text") || (type =? "bot-tts-text") then
    match message_text message with
    | Some text =>
        modify (fun s =>
          set_accumulatedBotText (accumulatedBotText s ++ text) s) ;;
        s <- get ;;
        call onBotTranscript (OnBotTranscript (accumulatedBotText s))
    | None => ret tt
    end
  else if type =? "bot-llm-started" then
    modify (set_accumulatedBotText "")
  else if type =? "bot-llm-stopped" then
    ret tt
  else if (type =? "bot-started-speaking") || (type =? "bot-tts-started") then
    call onBotStartedSpeaking OnBotStartedSpeaking
  else if (type =? "bot-stopped-speaking") || (type =? "bot-tts-stopped") then
    call onBotStoppedSpeaking OnBotStoppedSpeaking
  else if type =? "user-started-speaking" then
    call onUserStartedSpeaking OnUserStartedSpeaking
  else if type =? "user-stopped-speaking" then
    call onUserStoppedSpeaking OnUserStoppedSpeaking
  else if type =? "error" then
    match message_error message with
    | Some text =>
        if negb (text =? "") then call onError (OnError (Error text))
        else ret tt
    | None => ret tt
    end
  else ret tt.

(** The tags of the [switch] in [handleRTVIMessage]. *)
Definition dispatch_table : list string :=
  [ "user-transcription"; "bot-llm-text"; "bot-tts-text"; "bot-llm-started";
    "bot-llm-stopped"; "bot-started-speaking"; "bot-tts-started";
    "bot-stopped-speaking"; "bot-tts-stopped"; "user-started-speaking";
    "user-stopped-speaking"; "error" ].

(** The object literal of [sendClientReady]; [uuid] is the value of
    [crypto.randomUUID()], of which [slice(0, 8)] keeps the first eight
    characters. *)
Definition clientReadyMessage (uuid : string) : json :=
  JObject
    [ ("label", JString "rtvi-ai");
      ("type", JString "client-ready");
      ("id", JString (substring 0 8 uuid));
      ("data", JObject [ ("version", JString "1.0.0") ]) ].

Definition sendClientReady (uuid : string) : M unit :=
  s <- get ;;
  match dc s with
  | Some channel =>
      if negb (readyState channel =? "open") then
        console LevelWarn
          "[RTVI] Cannot send client-ready: data channel not open"
      else
        emit (ChannelSend (label channel) (clientReadyMessage uuid)) ;;
        console LevelLog "[RTVI] Sent client-ready message"
  | None =>
      console LevelWarn
        "[RTVI] Cannot send client-ready: data channel not open"
  end.

(** [this.dc.onopen] *)
Definition dc_onopen (uuid : string) : M unit :=
  console LevelLog "[RTVI] Data channel open" ;;
  sendClientReady uuid.

(** [this.dc.onclose] *)
Definition dc_onclose : M unit :=
  console LevelLog "[RTVI] Data channel closed".

(** [this.dc.onmessage]: [parsed] is what [JSON.parse(event.data)] does on
    this frame, a thrown [SyntaxError] or the parsed message.  (A frame
    holding the JSON value [null] parses, and reading [message.type] then
    throws inside the same [try]: it is an [inl] as well.) *)
Definition dc_onmessage (data : string) (parsed : JsError + RTVIMessage)
  : M unit :=
  try_catch
    (message <- (match parsed with
                 | inl e => throw e
                 | inr m => ret m
                 end) ;;
     handleRTVIMessage message)
    (fun _ => console LevelWarn "[RTVI] Failed to parse message:").

(** [setupDataChannelHandlers] *)
Definition setupDataChannelHandlers : M unit :=
  modify (fun s =>
    match dc s with
    | None => s
    | Some channel =>
        set_dc (Some {| label := label channel; dc_handlers := true;
                        readyState := readyState channel |}) s
    end).

(** ** Peer connection lifecycle *)

(** [x || 'unknown'] on a possibly missing state string. *)
Definition or_unknown (o : option string) : string :=
  if truthy o then show_opt o else "unknown".

Definition terminal (state : string) : bool :=
  (state =? "disconnected") || (state =? "failed") || (state =? "closed").

(** [this.pc.ontrack] *)
Definition pc_ontrack (track_kind : string) (stream : option string)
  : M unit :=
  console LevelLog "[RTVI] Received remote track:" ;;
  if track_kind =? "audio" then
    modify (set_remoteAudio
              (Some {| srcObject := stream; autoplay := true |})) ;;
    console LevelLog "[RTVI] Remote audio playback started"
  else ret tt.

(** [this.pc.ondatachannel] *)
Definition pc_ondatachannel (channel : RTCDataChannel) : M unit :=
  console LevelLog "[RTVI] Data channel received:" ;;
  modify (set_dc (Some channel)) ;;
  setupDataChannelHandlers.

(** [this.pc.oniceconnectionstatechange] *)
Definition pc_oniceconnectionstatechange : M unit :=
  s <- get ;;
  let state := or_unknown (option_map iceConnectionState (pc s)) in
  console LevelLog "[RTVI] ICE connection state:" ;;
  call onConnectionStateChange (OnConnectionStateChange state) ;;
  if terminal state then modify (set_connected false) else ret tt.

(** [this.pc.onconnectionstatechange] *)
Definition pc_onconnectionstatechange : M unit :=
  s <- get ;;
  let state := or_unknown (option_map connectionState (pc s)) in
  console LevelLog "[RTVI] Peer connection state:" ;;
  if state =? "connected" then modify (set_connected true)
  else if terminal state then modify (set_connected false)
  else ret tt.

(** [this.pc.onicecandidate]: [candidate] is [event.candidate] and [patch]
    the settlement of the [PATCH] request, when one is made. *)
Definition pc_onicecandidate (candidate : option string)
  (patch : JsError + unit) : M unit :=
  s <- get ;;
  match candidate with
  | Some c =>
      if truthy (sessionId s) then
        try_catch
          (emit (Fetch "PATCH"
                   (serverUrl s ++ "/sessions/" ++ show_opt (sessionId s)
                    ++ "/api/offer")
                   (JObject [ ("candidate", JString c) ])) ;;
           match patch with
           | inl e => throw e
           | inr _ => ret tt
           end)
          (fun _ => console LevelWarn "[RTVI] Failed to send ICE candidate:")
      else ret tt
  | None => ret tt
  end.

(** [setupPeerConnectionHandlers] *)
Definition setupPeerConnectionHandlers : M unit :=
  modify (fun s =>
    match pc s with
    | None => s
    | Some p =>
        set_pc (Some {| iceServers := iceServers p; pc_handlers := true;
                        senders := senders p;
                        localDescription := localDescription p;
                        remoteDescription := remoteDescription p;
                        iceConnectionState := iceConnectionState p;
                        connectionState := connectionState p |}) s
    end).

(** ** Events of the platform

    An event is raised by the peer connection or the data channel the
    service currently holds: the platform first updates the object, then
    runs the handler the service installed on it, if any.  An error escaping
    a handler is reported by the platform and reaches no caller. *)

Inductive Event :=
| EvTrack (track_kind : string) (stream : option string)
| EvDataChannel (channel_label : string) (channel_state : string)
| EvIceConnectionState (state : string)
| EvConnectionState (state : string)
| EvIceCandidate (candidate : option string) (patch : JsError + unit)
| EvChannelOpen (uuid : string)
| EvChannelClose
| EvChannelMessage (data : string) (parsed : JsError + RTVIMessage).

Definition isolate (handler : M unit) : M unit :=
  fun s =>
    match handler s with
    | (_, s1, t1) => (Normal tt, s1, t1)
    end.

Definition on_pc (update : RTCPeerConnection -> RTCPeerConnection)
  (handler : M unit) : M unit :=
  fun s =>
    match pc s with
    | None => (Normal tt, s, [])
    | Some p =>
        let s1 := set_pc (Some (update p)) s in
        if pc_handlers p then isolate handler s1 else (Normal tt, s1, [])
    end.

Definition on_dc (update : RTCDataChannel -> RTCDataChannel)
  (handler : M unit) : M unit :=
  fun s =>
    match dc s with
    | None => (Normal tt, s, [])
    | Some channel =>
        let s1 := set_dc (Some (update channel)) s in
        if dc_handlers channel then isolate handler s1
        else (Normal tt, s1, [])
    end.

Definition with_iceConnectionState (state : string) (p : RTCPeerConnection)
  : RTCPeerConnection :=
  {| iceServers := iceServers p; pc_handlers := pc_handlers p;
     senders := senders p; localDescription := localDescription p;
     remoteDescription := remoteDescription p;
     iceConnectionState := state; connectionState := connectionState p |}.

Definition with_connectionState (state : string) (p : RTCPeerConnection)
  : RTCPeerConnection :=
  {| iceServers := iceServers p; pc_handlers := pc_handlers p;
     senders := senders p; localDescription := localDescription p;
     remoteDescription := remoteDescription p;
     iceConnectionState := iceConnectionState p; connectionState := state |}.

Definition with_readyState (state : string) (channel : RTCDataChannel)
  : RTCDataChannel :=
  {| label := label channel; dc_handlers := dc_handlers channel;
     readyState := state |}.

Definition fire (e : Event) : M unit :=
  match e with
  | EvTrack track_kind stream =>
      on_pc (fun p => p) (pc_ontrack track_kind stream)
  | EvDataChannel channel_label channel_state =>
      on_pc (fun p => p)
        (pc_ondatachannel {| label := channel_label; dc_handlers := false;
                             readyState := channel_state |})
  | EvIceConnectionState state =>
      on_pc (with_iceConnectionState state) pc_oniceconnectionstatechange
  | EvConnectionState state =>
      on_pc (with_connectionState state) pc_onconnectionstatechange
  | EvIceCandidate candidate patch =>
      on_pc (fun p => p) (pc_onicecandidate candidate patch)
  | EvChannelOpen uuid =>
      on_dc (with_readyState "open") (dc_onopen uuid)
  | EvChannelClose =>
      on_dc (with_readyState "closed") dc_onclose
  | EvChannelMessage data parsed =>
      on_dc (fun channel => channel) (dc_onmessage data parsed)
  end.

Fixpoint fire_all (es : list Event) : M unit :=
  match es with
  | [] => ret tt
  | e :: es' => fire e ;; fire_all es'
  end.

(** ** Session facade *)

(** [disconnect] *)
Definition disconnect : M unit :=
  console LevelLog "[RTVI] Disconnecting..." ;;
  s <- get ;;
  match localStream s with
  | Some stream =>
      emit_all (map (fun t => TrackStop (track_id t)) (getTracks stream)) ;;
      modify (set_localStream None)
  | None => ret tt
  end ;;
  s <- get ;;
  match remoteAudio s with
  | Some _ => emit AudioDetach ;; modify (set_remoteAudio None)
  | None => ret tt
  end ;;
  s <- get ;;
  match dc s with
  | Some channel =>
      emit (ChannelClose (label channel)) ;; modify (set_dc None)
  | None => ret tt
  end ;;
  s <- get ;;
  match pc s with
  | Some _ => emit PeerClose ;; modify (set_pc None)
  | None => ret tt
  end ;;
  modify (set_connected false) ;;
  modify (set_sessionId None) ;;
  modify (set_accumulatedBotText "") ;;
  call onConnectionStateChange (OnConnectionStateChange "disconnected") ;;
  console LevelLog "[RTVI] Disconnected".

Definition with_enabled (b : bool) (t : MediaStreamTrack) : MediaStreamTrack :=
  {| track_id := track_id t; kind := kind t; enabled := b |}.

(** [setMicMuted]: [getAudioTracks().forEach(track => track.enabled = !muted)]
    writes to the tracks of the stream in place. *)
Definition setMicMuted (muted : bool) : M unit :=
  s <- get ;;
  match localStream s with
  | Some stream =>
      modify (set_localStream
        (Some {| stream_id := stream_id stream;
                 getTracks :=
                   map (fun t => if is_audio t then with_enabled (negb muted) t
                                 else t)
                       (getTracks stream) |})) ;;
      console LevelLog "[RTVI] Mic"
  | None => ret tt
  end.

(** [get isMicMuted] *)
Definition isMicMuted (s : Service) : bool :=
  match localStream s with
  | None => true
  | Some stream =>
      match getAudioTracks stream with
      | audioTrack :: _ => negb (enabled audioTrack)
      | [] => true
      end
  end.

(** [get connected] *)
Definition connected (s : Service) : bool := _connected s.

(** A suspension of [connect] at an [await]: the events the platform
    dispatches while the call is suspended, then how the awaited promise
    settles. *)
Record Awaited (A : Type) :=
  { during : list Event; settled : JsError + A }.
Arguments during {A} a.
Arguments settled {A} a.

Definition settle {A} (r : JsError + A) : M A :=
  match r with
  | inl e => throw e
  | inr v => ret v
  end.

Definition await {A} (a : Awaited A) : M A :=
  fire_all (during a) ;; settle (settled a).

(** The body of the [/start] response as [connect] destructures it: a
    missing [sessionId] is [None]; [iceConfig] may be missing, and may lack
    [iceServers]. *)
Record StartBody :=
  { body_sessionId : option string;
    iceConfig : option (option (list RTCIceServer)) }.

(** The body of the offer response. *)
Record Answer := { answer_type : string; answer_sdp : string }.

(** What the platform answers to one call of [connect], step by step.  A
    response body that cannot be read or destructured settles its step with
    the error thrown; [peerConstruct] is the verdict of the
    [RTCPeerConnection] constructor on the server list. *)
Record ConnectEnv :=
  { startResponse : Awaited Response;
    startBody : Awaited StartBody;
    peerConstruct : JsError + unit;
    userMedia : Awaited MediaStream;
    createOffer : Awaited RTCSessionDescription;
    setLocalDescription : Awaited unit;
    offerResponse : Awaited Response;
    answerBody : Awaited Answer;
    setRemoteDescription : Awaited unit }.

Definition default_iceServers : list RTCIceServer :=
  [ {| urls := "stun:stun.l.google.com:19302" |} ].

(** [iceConfig?.iceServers || [ ... ]] *)
Definition chosen_iceServers (body : StartBody) : list RTCIceServer :=
  match iceConfig body with
  | Some (Some servers) => servers
  | _ => default_iceServers
  end.

(** [config.enableMic !== false] and [config.enableCam || false] *)
Definition mic_wanted (config : RTVIConfig) : bool :=
  match enableMic config with
  | Some false => false
  | _ => true
  end.

Definition cam_wanted (config : RTVIConfig) : bool :=
  match enableCam config with
  | Some b => b
  | None => false
  end.

(** A method call on [this.pc]: a [TypeError] when the field is [null]. *)
Definition this_pc : M RTCPeerConnection :=
  s <- get ;;
  match pc s with
  | Some p => ret p
  | None => throw (TypeError "Cannot read properties of null")
  end.

Definition update_pc (f : RTCPeerConnection -> RTCPeerConnection) : M unit :=
  modify (fun s =>
    match pc s with
    | Some p => set_pc (Some (f p)) s
    | None => s
    end).

Definition with_senders (l : list string) (p : RTCPeerConnection)
  : RTCPeerConnection :=
  {| iceServers := iceServers p; pc_handlers := pc_handlers p;
     senders := l; localDescription := localDescription p;
     remoteDescription := remoteDescription p;
     iceConnectionState := iceConnectionState p;
     connectionState := connectionState p |}.

Definition with_localDescription (d : RTCSessionDescription)
  (p : RTCPeerConnection) : RTCPeerConnection :=
  {| iceServers := iceServers p; pc_handlers := pc_handlers p;
     senders := senders p; localDescription := Some d;
     remoteDescription := remoteDescription p;
     iceConnectionState := iceConnectionState p;
     connectionState := connectionState p |}.

Definition with_remoteDescription (d : RTCSessionDescription)
  (p : RTCPeerConnection) : RTCPeerConnection :=
  {| iceServers := iceServers p; pc_handlers := pc_handlers p;
     senders := senders p; localDescription := localDescription p;
     remoteDescription := Some d;
     iceConnectionState := iceConnectionState p;
     connectionState := connectionState p |}.

(** [this.localStream.getTracks().forEach(track => this.pc!.addTrack(...))] *)
Fixpoint addTracks (tracks : list MediaStreamTrack) : M unit :=
  match tracks with
  | [] => ret tt
  | track :: rest =>
      this_pc ;;
      update_pc (fun p => with_senders (senders p ++ [track_id track]) p) ;;
      addTracks rest
  end.

(** The error thrown for a non-success HTTP status: [what] names the step,
    the message surfaces the status code. *)
Definition status_error (what : string) (r : Response) : JsError :=
  Error (what ++ ": " ++ show_nat (status r)).

(** The [try] block of [connect], step by step as the source numbers it.

    1. Create session via the [/start] endpoint. *)
Definition step1_create_session (env : ConnectEnv) : M StartBody :=
  console LevelLog "[RTVI] Creating session..." ;;
  s <- get ;;
  emit (Fetch "POST" (serverUrl s ++ "/start")
          (JObject [ ("enableDefaultIceServers", JBool true) ])) ;;
  response <- await (startResponse env) ;;
  (if negb (ok response)
   then throw (status_error "Failed to create session" response)
   else ret tt) ;;
  body <- await (startBody env) ;;
  modify (set_sessionId (body_sessionId body)) ;;
  console LevelLog "[RTVI] Session created:" ;;
  ret body.

(** 2. Create the peer connection with the ICE servers. *)
Definition step2_create_peer_connection (env : ConnectEnv) (body : StartBody)
  : M unit :=
  settle (peerConstruct env) ;;
  modify (set_pc (Some (new_RTCPeerConnection (chosen_iceServers body)))) ;;
  setupPeerConnectionHandlers.

(** 3. Get the local audio stream. *)
Definition step3_local_stream (config : RTVIConfig) (env : ConnectEnv)
  : M unit :=
  if mic_wanted config then
    console LevelLog "[RTVI] Requesting microphone access..." ;;
    emit (GetUserMedia (cam_wanted config)) ;;
    stream <- await (userMedia env) ;;
    modify (set_localStream (Some stream)) ;;
    addTracks (getTracks stream) ;;
    console LevelLog "[RTVI] Local audio track added"
  else ret tt.

(** 4. Create the offer and set it as local description. *)
Definition step4_create_offer (env : ConnectEnv) : M RTCSessionDescription :=
  console LevelLog "[RTVI] Creating WebRTC offer..." ;;
  this_pc ;;
  offer <- await (createOffer env) ;;
  this_pc ;;
  await (setLocalDescription env) ;;
  update_pc (with_localDescription offer) ;;
  ret offer.

(** 5. Send the offer to the server and get the answer; [session] is the
    local constant [sessionId] of step 1. *)
Definition step5_exchange_offer (env : ConnectEnv) (session : option string)
  (offer : RTCSessionDescription) : M Answer :=
  s <- get ;;
  emit (Fetch "POST"
          (serverUrl s ++ "/sessions/" ++ show_opt session ++ "/api/offer")
          (JObject [ ("sdp", JString (sdp offer));
                     ("type", JString (sd_type offer)) ])) ;;
  response <- await (offerResponse env) ;;
  (if negb (ok response)
   then throw (status_error "Failed to send offer" response)
   else ret tt) ;;
  answer <- await (answerBody env) ;;
  console LevelLog "[RTVI] Received answer, pc_id:" ;;
  ret answer.

(** 6. Set the remote description. *)
Definition step6_set_remote_description (env : ConnectEnv) (answer : Answer)
  : M unit :=
  this_pc ;;
  await (setRemoteDescription env) ;;
  update_pc (with_remoteDescription
               {| sd_type := answer_type answer; sdp := answer_sdp answer |}).

Definition negotiate (config : RTVIConfig) (env : ConnectEnv) : M unit :=
  body <- step1_create_session env ;;
  step2_create_peer_connection env body ;;
  step3_local_stream config env ;;
  offer <- step4_create_offer env ;;
  answer <- step5_exchange_offer env (body_sessionId body) offer ;;
  step6_set_remote_description env answer.

(** The three statements that close the [try] block. *)
Definition report_connected : M unit :=
  modify (set_connected true) ;;
  call onConnectionStateChange (OnConnectionStateChange "connected") ;;
  console LevelLog "[RTVI] WebRTC connection established".

Definition connect_steps (config : RTVIConfig) (env : ConnectEnv) : M unit :=
  negotiate config env ;;
  report_connected.

(** The [catch] block of [connect]. *)
Definition connect_failed (error : JsError) : M unit :=
  console LevelError "[RTVI] Connection error:" ;;
  call onError (OnError error) ;;
  disconnect ;;
  throw error.

(** [connect]: a [Throw] completion is the rejection of the promise. *)
Definition connect (config : RTVIConfig) (cbs : RTVICallbacks)
  (env : ConnectEnv) : M unit :=
  modify (set_serverUrl (cfg_serverUrl config)) ;;
  modify (set_callbacks cbs) ;;
  modify (set_accumulatedBotText "") ;;
  try_catch (connect_steps config env) connect_failed.

(** ** Runs of a service: calls of the public interface and events *)

Inductive Action :=
| Connect (config : RTVIConfig) (cbs : RTVICallbacks) (env : ConnectEnv)
| Disconnect
| SetMicMuted (muted : bool)
| Fire (e : Event).

Definition act (a : Action) : M unit :=
  match a with
  | Connect config cbs env => connect config cbs env
  | Disconnect => disconnect
  | SetMicMuted muted => setMicMuted muted
  | Fire e => fire e
  end.

(** A rejected [connect] is the caller's to handle; the run goes on. *)
Fixpoint run (actions : list Action) (s : Service) : Service * list Effect :=
  match actions with
  | [] => (s, [])
  | a :: rest =>
      match act a s with
      | (_, s1, t1) =>
          match run rest s1 with
          | (s2, t2) => (s2, t1 ++ t2)
          end
      end
  end.

(** Messages handled one after the other, in the order the ordered channel
    delivers them. *)
Fixpoint handleAll (messages : list RTVIMessage) : M unit :=
  match messages with
  | [] => ret tt
  | message :: rest => handleRTVIMessage message ;; handleAll rest
  end.

(** The tags whose [case] appends a text fragment. *)
Definition bot_text_type (type : string) : Prop :=
  type = "bot-llm-text" \/ type = "bot-tts-text".

(** The tags whose [case] reads [message.data?.text]. *)
Definition text_type (type : string) : Prop :=
  type = "user-transcription" \/ bot_text_type type.

(** A message carrying only a text fragment. *)
Definition fragment (type text : string) : RTVIMessage :=
  {| msg_type := type;
     msg_data := Some {| data_text := Some text; data_final := None;
                         data_error := None |} |}.

(** A message without payload. *)
Definition bare (type : string) : RTVIMessage :=
  {| msg_type := type; msg_data := None |}.

(** The fields [disconnect] assigns, at the values of the class's field
    initialisers; [serverUrl] and [callbacks] are kept. *)
Definition pre_connect (s : Service) : Service :=
  {| pc := None; dc := None; localStream := None; remoteAudio := None;
     sessionId := None; serverUrl := serverUrl s; callbacks := callbacks s;
     _connected := false; accumulatedBotText := "" |}.

(** ** What a call of [connect] yields

    The error monad underneath [M]: the outcome of each step of [connect] as
    a function of the platform's answers alone. *)

Definition and_then {A B} (r : JsError + A) (k : A -> JsError + B)
  : JsError + B :=
  match r with
  | inl e => inl e
  | inr a => k a
  end.

Definition to_completion {A} (r : JsError + A) : Completion A :=
  match r with
  | inl e => Throw e
  | inr a => Normal a
  end.

Definition check_ok (what : string) (response : Response) : JsError + unit :=
  if negb (ok response) then inl (status_error what response) else inr tt.

Definition step1_outcome (env : ConnectEnv) : JsError + StartBody :=
  and_then (settled (startResponse env)) (fun response =>
  and_then (check_ok "Failed to create session" response) (fun _ =>
  settled (startBody env))).

Definition step3_outcome (config : RTVIConfig) (env : ConnectEnv)
  : JsError + unit :=
  if mic_wanted config
  then and_then (settled (userMedia env)) (fun _ => inr tt)
  else inr tt.

Definition step4_outcome (env : ConnectEnv)
  : JsError + RTCSessionDescription :=
  and_then (settled (createOffer env)) (fun offer =>
  and_then (settled (setLocalDescription env)) (fun _ =>
  inr offer)).

Definition step5_outcome (env : ConnectEnv) : JsError + Answer :=
  and_then (settled (offerResponse env)) (fun response =>
  and_then (check_ok "Failed to send offer" response) (fun _ =>
  settled (answerBody env))).

Definition negotiate_outcome (config : RTVIConfig) (env : ConnectEnv)
  : JsError + unit :=
  and_then (step1_outcome env) (fun _ =>
  and_then (peerConstruct env) (fun _ =>
  and_then (step3_outcome config env) (fun _ =>
  and_then (step4_outcome env) (fun _ =>
  and_then (step5_outcome env) (fun _ =>
  settled (setRemoteDescription env)))))).

(** Modelled from the spec: [SignalingError], which the source does not
    declare as a class.  The spec gives the name to the failure on a
    non-success HTTP status during session creation or offer exchange, which
    surfaces the status code; in the source that failure is the [Error]
    built by [status_error]. *)
Definition SignalingError (e : JsError) : Prop :=
  exists what response,
    ok response = false /\ e = status_error what response.

(** The events dispatched while a call of [connect] is suspended, and the
    events of an action. *)
Definition events_during (env : ConnectEnv) : list Event :=
  during (startResponse env) ++ during (startBody env) ++
  during (userMedia env) ++ during (createOffer env) ++
  during (setLocalDescription env) ++ during (offerResponse env) ++
  during (answerBody env) ++ during (setRemoteDescription env).

Definition events_of (a : Action) : list Event :=
  match a with
  | Connect _ _ env => events_during env
  | Fire e => [e]
  | Disconnect | SetMicMuted _ => []
  end.

Definition is_open (e : Event) : bool :=
  match e with
  | EvChannelOpen _ => true
  | _ => false
  end.

Definition is_connect (a : Action) : bool :=
  match a with
  | Connect _ _ _ => true
  | _ => false
  end.

(** The transport reporting [connected]: on the ICE connection state, on the
    overall connection state. *)
Definition ice_connected (e : Event) : bool :=
  match e with
  | EvIceConnectionState state => state =? "connected"
  | _ => false
  end.

Definition transport_connected (e : Event) : bool :=
  match e with
  | EvConnectionState state => state =? "connected"
  | _ => false
  end.

(** The transport reporting a terminal state on either signal. *)
Definition transport_terminal (e : Event) : bool :=
  match e with
  | EvIceConnectionState state | EvConnectionState state => terminal state
  | _ => false
  end.

(** ** Relations between the state before, the state after and the effects
    of a piece of service code *)

Definition respects (R : Service -> Service -> list Effect -> Prop)
  {A} (m : M A) : Prop :=
  forall s, R s (state_of (m s)) (effects (m s)).

(** Every effect satisfies [Q]. *)
Definition emits (Q : Effect -> Prop)
  : Service -> Service -> list Effect -> Prop :=
  fun _ _ t => Forall Q t.

(** A condition [Pf] on the frames sent and [Pc] on the connection states
    notified; the other effects are free. *)
Definition effect_ok (Pf : json -> Prop) (Pc : string -> Prop) (e : Effect)
  : Prop :=
  match e with
  | ChannelSend _ frame => Pf frame
  | Call (OnConnectionStateChange state) => Pc state
  | _ => True
  end.

(** The events whose handlers keep within [effect_ok Pf Pc]. *)
Definition event_ok (Pf : json -> Prop) (Pc : string -> Prop) (e : Event)
  : Prop :=
  match e with
  | EvChannelOpen uuid => Pf (clientReadyMessage uuid)
  | EvIceConnectionState state => Pc (or_unknown (Some state))
  | _ => True
  end.

(** The server address and the callbacks are kept, and a peer connection
    that is held stays held. *)
Definition keeps : Service -> Service -> list Effect -> Prop :=
  fun s s' _ =>
    serverUrl s' = serverUrl s /\
    callbacks s' = callbacks s /\
    (pc s <> None -> pc s' <> None).

(** A connected flag that is down stays down. *)
Definition stays_down : Service -> Service -> list Effect -> Prop :=
  fun s s' _ => _connected s = false -> _connected s' = false.

(** [m], started in a state satisfying [P], completes as [out] says and, when
    it completes normally, in a state satisfying [Q]. *)
Definition yields {A} (P : Service -> Prop) (m : M A) (out : JsError + A)
  (Q : Service -> Prop) : Prop :=
  forall s, P s ->
    completion (m s) = to_completion out /\
    (forall a, out = inr a -> Q (state_of (m s))).

Definition has_pc (s : Service) : Prop := pc s <> None.

(** ** A scenario: every step of [connect] succeeds and no event is
    dispatched while the call is suspended *)

Definition all_callbacks : RTVICallbacks :=
  {| onUserTranscript := true; onBotTranscript := true;
     onBotStartedSpeaking := true; onBotStoppedSpeaking := true;
     onUserStartedSpeaking := true; onUserStoppedSpeaking := true;
     onConnectionStateChange := true; onError := true |}.

Definition scenario_config : RTVIConfig :=
  {| cfg_serverUrl := "http://x"; enableMic := None; enableCam := None |}.

Definition resolves {A} (a : A) : Awaited A :=
  {| during := []; settled := inr a |}.

Definition scenario_env : ConnectEnv :=
  {| startResponse := resolves {| status := 200 |};
     startBody :=
       resolves {| body_sessionId := Some "s1"; iceConfig := None |};
     peerConstruct := inr tt;
     userMedia :=
       resolves {| stream_id := "local";
                   getTracks := [ {| track_id := "mic"; kind := "audio";
                                     enabled := true |} ] |};
     createOffer := resolves {| sd_type := "offer"; sdp := "v=0" |};
     setLocalDescription := resolves tt;
     offerResponse := resolves {| status := 200 |};
     answerBody := resolves {| answer_type := "answer"; answer_sdp := "v=0" |};
     setRemoteDescription := resolves tt |}.

(** The same scenario with the session-creation endpoint answering 500. *)
Definition scenario_env_500 : ConnectEnv :=
  {| startResponse := resolves {| status := 500 |};
     startBody := startBody scenario_env;
     peerConstruct := peerConstruct scenario_env;
     userMedia := userMedia scenario_env;
     createOffer := createOffer scenario_env;
     setLocalDescription := setLocalDescription scenario_env;
     offerResponse := offerResponse scenario_env;
     answerBody := answerBody scenario_env;
     setRemoteDescription := setRemoteDescription scenario_env |}.

(** The same scenario with the offer endpoint answering 503, once the
    microphone has been acquired. *)
Definition scenario_env_503 : ConnectEnv :=
  {| startResponse := startResponse scenario_env;
     startBody := startBody scenario_env;
     peerConstruct := peerConstruct scenario_env;
     userMedia := userMedia scenario_env;
     createOffer := createOffer scenario_env;
     setLocalDescription := setLocalDescription scenario_env;
     offerResponse := resolves {| status := 503 |};
     answerBody := answerBody scenario_env;
     setRemoteDescription := setRemoteDescription scenario_env |}.

(** The same scenario with the microphone permission denied. *)
Definition scenario_env_denied : ConnectEnv :=
  {| startResponse := startResponse scenario_env;
     startBody := startBody scenario_env;
     peerConstruct := peerConstruct scenario_env;
     userMedia :=
       {| during := [];
          settled := inl {| err_name := "NotAllowedError";
                            err_message := "Permission denied" |} |};
     createOffer := createOffer scenario_env;
     setLocalDescription := setLocalDescription scenario_env;
     offerResponse := offerResponse scenario_env;
     answerBody := answerBody scenario_env;
     setRemoteDescription := setRemoteDescription scenario_env |}.

(** The scenario's configuration with the microphone switched off. *)
Definition scenario_config_no_mic : RTVIConfig :=
  {| cfg_serverUrl := "http://x"; enableMic := Some false;
     enableCam := None |}.

(** The service as the [try] block of [connect] finds it, after the three
    assignments that open [connect]. *)
Definition connect_entry (config : RTVIConfig) (cbs : RTVICallbacks)
  (s : Service) : Service :=
  set_accumulatedBotText ""
    (set_callbacks cbs (set_serverUrl (cfg_serverUrl config) s)).

(** What [disconnect] releases on a service: the tracks it stops, the sink
    it detaches, the channel and the connection it closes. *)
Definition released (s : Service) : list Effect :=
  match localStream s with
  | Some stream => map (fun t => TrackStop (track_id t)) (getTracks stream)
  | None => []
  end ++
  match remoteAudio s with
  | Some _ => [AudioDetach]
  | None => []
  end ++
  match dc s with
  | Some channel => [ChannelClose (label channel)]
  | None => []
  end ++
  match pc s with
  | Some _ => [PeerClose]
  | None => []
  end.

(** ** Observations on effects and runs *)

(** The network requests among a list of effects: method and URL. *)
Fixpoint requests (t : list Effect) : list (string * string) :=
  match t with
  | [] => []
  | Fetch method url _ :: t' => (method, url) :: requests t'
  | _ :: t' => requests t'
  end.

(** The buffers a run of text fragments passes through, starting from
    [buffer]. *)
Fixpoint running (buffer : string) (texts : list string) : list string :=
  match texts with
  | [] => []
  | text :: rest =>
      (buffer ++ text)%string :: running (buffer ++ text)%string rest
  end.

(** An effect that neither releases a platform object nor asks for the
    microphone. *)
Definition release_free (e : Effect) : Prop :=
  match e with
  | TrackStop _ | AudioDetach | ChannelClose _ | PeerClose
  | GetUserMedia _ => False
  | _ => True
  end.

(** The local stream is kept and nothing is released. *)
Definition retains : Service -> Service -> list Effect -> Prop :=
  fun s s' t =>
    localStream s' = localStream s /\ Forall release_free t.

(** No event is dispatched while [connect] is suspended. *)
Definition undisturbed (env : ConnectEnv) : Prop :=
  during (startResponse env) = [] /\ during (startBody env) = [] /\
  during (userMedia env) = [] /\ during (createOffer env) = [] /\
  during (setLocalDescription env) = [] /\
  during (offerResponse env) = [] /\ during (answerBody env) = [] /\
  during (setRemoteDescription env) = [].

(** Every signaling step of [connect] succeeds: both endpoints answer with
    a success status and the bodies [body] and [answer], the peer connection
    is constructed, and [offer] is created and applied, as is the answer. *)
Definition signaling_succeeds (env : ConnectEnv) (body : StartBody)
  (offer : RTCSessionDescription) (answer : Answer) : Prop :=
  (exists response,
     settled (startResponse env) = inr response /\ ok response = true) /\
  settled (startBody env) = inr body /\
  peerConstruct env = inr tt /\
  settled (createOffer env) = inr offer /\
  settled (setLocalDescription env) = inr tt /\
  (exists response,
     settled (offerResponse env) = inr response /\ ok response = true) /\
  settled (answerBody env) = inr answer /\
  settled (setRemoteDescription env) = inr tt.

(** The peer connection a successful [connect] leaves behind. *)
Definition negotiated_pc (body : StartBody) (tracks : list MediaStreamTrack)
  (offer : RTCSessionDescription) (answer : Answer) : RTCPeerConnection :=
  {| iceServers := chosen_iceServers body; pc_handlers := true;
     senders := map track_id tracks;
     localDescription := Some offer;
     remoteDescription :=
       Some {| sd_type := answer_type answer; sdp := answer_sdp answer |};
     iceConnectionState := "new"; connectionState := "new" |}.

(** The objects the service holds carry the handlers it installs:
    [setupPeerConnectionHandlers] has run on the peer connection,
    [setupDataChannelHandlers] on the data channel. *)
Definition installed (s : Service) : Prop :=
  (forall p, pc s = Some p -> pc_handlers p = true) /\
  (forall channel, dc s = Some channel -> dc_handlers channel = true).

(** Handlers that are installed stay installed. *)
Definition stays_installed : Service -> Service -> list Effect -> Prop :=
  fun s s' _ => installed s -> installed s'.

(** * Properties *)

(** ** Transcript accumulation *)

Lemma handle_bot_text (type text : string) (message : RTVIMessage)
  (s : Service) :
  bot_text_type type ->
  msg_type message = type ->
  message_text message = Some text ->
  handleRTVIMessage message s =
    (Normal tt,
     set_accumulatedBotText (accumulatedBotText s ++ text)%string s,
     Console LevelLog "[RTVI] Message:" ::
       (if onBotTranscript (callbacks s)
        then [Call (OnBotTranscript (accumulatedBotText s ++ text)%string)]
        else [])).
Proof.
  intros Htype Hmsg Htext.
  unfold handleRTVIMessage, bind, console, emit, modify, get, call.
  rewrite Hmsg, Htext.
  destruct Htype as [-> | ->]; cbn;
    destruct (onBotTranscript (callbacks s)); reflexivity.
Qed.

Lemma handle_bot_llm_started (message : RTVIMessage) (s : Service) :
  msg_type message = "bot-llm-started" ->
  handleRTVIMessage message s =
    (Normal tt, set_accumulatedBotText "" s,
     [Console LevelLog "[RTVI] Message:"]).
Proof.
  intros Hmsg.
  unfold handleRTVIMessage. rewrite Hmsg. reflexivity.
Qed.

Lemma calls_app (t1 t2 : list Effect) :
  calls (t1 ++ t2) = calls t1 ++ calls t2.
Proof.
  induction t1 as [| e t1 IH]; [reflexivity |].
  destruct e; cbn; rewrite IH; reflexivity.
Qed.

Lemma frames_app (t1 t2 : list Effect) :
  frames (t1 ++ t2) = frames t1 ++ frames t2.
Proof.
  induction t1 as [| e t1 IH]; [reflexivity |].
  destruct e; cbn; rewrite IH; reflexivity.
Qed.

(** C2. A [bot-llm-text] or [bot-tts-text] message carrying a text fragment
    appends the fragment to the accumulated bot text and hands the whole
    accumulated text, not the fragment, to the bot-transcript callback (when
    one is supplied); two consecutive fragments [a] then [b] arriving on an
    empty buffer (such as "Hel" then "lo") reach the callback as [a] then
    [a ++ b]. *)
Theorem C2_bot_text_is_cumulative
  (m1 m2 : RTVIMessage) (a b : string) (s : Service) :
  bot_text_type (msg_type m1) -> message_text m1 = Some a ->
  bot_text_type (msg_type m2) -> message_text m2 = Some b ->
  let buffer := accumulatedBotText s in
  let supplied := onBotTranscript (callbacks s) in
  let r1 := handleRTVIMessage m1 s in
  let r2 := handleAll [m1; m2] s in
  completion r1 = Normal tt /\
  state_of r1 = set_accumulatedBotText (buffer ++ a)%string s /\
  calls (effects r1) =
    (if supplied then [OnBotTranscript (buffer ++ a)%string] else []) /\
  completion r2 = Normal tt /\
  state_of r2 = set_accumulatedBotText ((buffer ++ a) ++ b)%string s /\
  calls (effects r2) =
    (if supplied
     then [OnBotTranscript (buffer ++ a)%string;
           OnBotTranscript ((buffer ++ a) ++ b)%string]
     else []) /\
  (buffer = "" -> supplied = true ->
   calls (effects r2) = [OnBotTranscript a; OnBotTranscript (a ++ b)%string]).
Proof.
  intros T1 A T2 B buffer supplied r1 r2.
  assert (E1 : r1 =
    (Normal tt, set_accumulatedBotText (buffer ++ a)%string s,
     Console LevelLog "[RTVI] Message:" ::
       (if supplied then [Call (OnBotTranscript (buffer ++ a)%string)]
        else []))).
  { unfold r1. now rewrite (handle_bot_text (msg_type m1) a). }
  assert (E2 : r2 =
    (Normal tt, set_accumulatedBotText ((buffer ++ a) ++ b)%string s,
     (Console LevelLog "[RTVI] Message:" ::
        (if supplied then [Call (OnBotTranscript (buffer ++ a)%string)]
         else [])) ++
     (Console LevelLog "[RTVI] Message:" ::
        (if supplied
         then [Call (OnBotTranscript ((buffer ++ a) ++ b)%string)]
         else [])))).
  { unfold r2, handleAll, bind. fold r1. rewrite E1.
    rewrite (handle_bot_text (msg_type m2) b) by auto.
    cbn. rewrite app_nil_r. reflexivity. }
  rewrite E1, E2. unfold completion, state_of, effects. cbn [fst snd].
  rewrite calls_app.
  repeat split; try (destruct supplied; reflexivity).
  intros Hbuf Hsup. rewrite Hbuf, Hsup. reflexivity.
Qed.

Lemma C2_bot_text_is_cumulative_witness :
  let s := set_callbacks
             {| onUserTranscript := false; onBotTranscript := true;
                onBotStartedSpeaking := false; onBotStoppedSpeaking := false;
                onUserStartedSpeaking := false;
                onUserStoppedSpeaking := false;
                onConnectionStateChange := false; onError := false |}
             new_RTVIVoiceService in
  calls (effects (handleAll [fragment "bot-llm-text" "Hel";
                             fragment "bot-llm-text" "lo"] s)) =
    [OnBotTranscript "Hel"; OnBotTranscript "Hello"].
Proof.
  intros s.
  apply (C2_bot_text_is_cumulative
           (fragment "bot-llm-text" "Hel") (fragment "bot-llm-text" "lo")
           "Hel" "lo" s);
    solve [left; reflexivity | reflexivity].
Defined.

(** C3. A [bot-llm-started] message empties the accumulated bot text and
    invokes no callback, so the fragments [a], then [bot-llm-started], then
    [b] reach the bot-transcript callback as the buffer extended by [a], then
    [b] alone: "Hi" then "Yo" on an empty buffer, never "HiYo". *)
Theorem C3_bot_llm_started_resets
  (m1 started m2 : RTVIMessage) (a b : string) (s : Service) :
  bot_text_type (msg_type m1) -> message_text m1 = Some a ->
  msg_type started = "bot-llm-started" ->
  bot_text_type (msg_type m2) -> message_text m2 = Some b ->
  let buffer := accumulatedBotText s in
  let supplied := onBotTranscript (callbacks s) in
  let r := handleRTVIMessage started s in
  let r3 := handleAll [m1; started; m2] s in
  completion r = Normal tt /\
  state_of r = set_accumulatedBotText "" s /\
  calls (effects r) = [] /\
  state_of r3 = set_accumulatedBotText b s /\
  calls (effects r3) =
    (if supplied
     then [OnBotTranscript (buffer ++ a)%string; OnBotTranscript b]
     else []) /\
  (buffer = "" -> supplied = true ->
   calls (effects r3) = [OnBotTranscript a; OnBotTranscript b]).
Proof.
  intros T1 A St T2 B buffer supplied r r3.
  assert (E : forall s0, handleRTVIMessage started s0 =
    (Normal tt, set_accumulatedBotText "" s0,
     [Console LevelLog "[RTVI] Message:"])).
  { intros s0. now apply handle_bot_llm_started. }
  assert (E3 : r3 =
    (Normal tt, set_accumulatedBotText b s,
     (Console LevelLog "[RTVI] Message:" ::
        (if supplied then [Call (OnBotTranscript (buffer ++ a)%string)]
         else [])) ++
     [Console LevelLog "[RTVI] Message:"] ++
     (Console LevelLog "[RTVI] Message:" ::
        (if supplied then [Call (OnBotTranscript b)] else [])))).
  { unfold r3, handleAll, bind.
    rewrite (handle_bot_text (msg_type m1) a) by auto.
    rewrite E.
    rewrite (handle_bot_text (msg_type m2) b) by auto.
    cbn. rewrite app_nil_r. reflexivity. }
  unfold r. rewrite E, E3.
  unfold completion, state_of, effects. cbn [fst snd].
  rewrite !calls_app.
  repeat split; try (destruct supplied; reflexivity).
  intros Hbuf Hsup. rewrite Hbuf, Hsup. reflexivity.
Qed.

Lemma C3_bot_llm_started_resets_witness :
  let s := set_callbacks
             {| onUserTranscript := false; onBotTranscript := true;
                onBotStartedSpeaking := false; onBotStoppedSpeaking := false;
                onUserStartedSpeaking := false;
                onUserStoppedSpeaking := false;
                onConnectionStateChange := false; onError := false |}
             new_RTVIVoiceService in
  calls (effects (handleAll [fragment "bot-llm-text" "Hi";
                             bare "bot-llm-started";
                             fragment "bot-llm-text" "Yo"] s)) =
    [OnBotTranscript "Hi"; OnBotTranscript "Yo"].
Proof.
  intros s.
  apply (C3_bot_llm_started_resets
           (fragment "bot-llm-text" "Hi") (bare "bot-llm-started")
           (fragment "bot-llm-text" "Yo") "Hi" "Yo" s);
    solve [left; reflexivity | reflexivity].
Defined.

(** ** Frames that change nothing *)

Lemma not_in_cons {A} (x a : A) (l : list A) :
  ~ In x (a :: l) -> a <> x /\ ~ In x l.
Proof.
  intros H. split; intros H'; apply H; [left | right]; assumption.
Qed.

Lemma eqb_false_of_neq (a b : string) : a <> b -> (b =? a) = false.
Proof.
  intros H. apply String.eqb_neq. congruence.
Qed.

Lemma handle_unknown_type (message : RTVIMessage) (s : Service) :
  ~ In (msg_type message) dispatch_table ->
  handleRTVIMessage message s =
    (Normal tt, s, [Console LevelLog "[RTVI] Message:"]).
Proof.
  intros H. unfold dispatch_table in H.
  repeat (apply not_in_cons in H;
          let N := fresh "N" in destruct H as [N H];
          apply eqb_false_of_neq in N).
  unfold handleRTVIMessage.
  rewrite N, N0, N1, N2, N3, N4, N5, N6, N7, N8, N9, N10.
  reflexivity.
Qed.

Lemma handle_missing_text (message : RTVIMessage) (s : Service) :
  text_type (msg_type message) ->
  message_text message = None ->
  handleRTVIMessage message s =
    (Normal tt, s, [Console LevelLog "[RTVI] Message:"]).
Proof.
  intros T H. unfold handleRTVIMessage.
  destruct T as [-> | [-> | ->]]; cbn; rewrite H; reflexivity.
Qed.

Lemma handle_missing_error (message : RTVIMessage) (s : Service) :
  msg_type message = "error" ->
  message_error message = None \/ message_error message = Some "" ->
  handleRTVIMessage message s =
    (Normal tt, s, [Console LevelLog "[RTVI] Message:"]).
Proof.
  intros T H. unfold handleRTVIMessage. rewrite T.
  destruct H as [-> | ->]; reflexivity.
Qed.

(** C10. A message whose tag is not in the dispatch table, a
    [user-transcription], [bot-llm-text] or [bot-tts-text] message without a
    [text] field, and an [error] message whose [error] field is absent or
    the empty string all leave the service unchanged, accumulated bot text
    included, and invoke no callback: the handler only writes its log
    line. *)
Theorem C10_unhandled_message_is_inert
  (message : RTVIMessage) (s : Service) :
  ~ In (msg_type message) dispatch_table \/
  (text_type (msg_type message) /\ message_text message = None) \/
  (msg_type message = "error" /\
   (message_error message = None \/ message_error message = Some "")) ->
  let r := handleRTVIMessage message s in
  completion r = Normal tt /\
  state_of r = s /\
  accumulatedBotText (state_of r) = accumulatedBotText s /\
  calls (effects r) = [] /\
  effects r = [Console LevelLog "[RTVI] Message:"].
Proof.
  intros H r.
  assert (E : r = (Normal tt, s, [Console LevelLog "[RTVI] Message:"])).
  { unfold r. destruct H as [H | [[T H] | [T H]]].
    - now apply handle_unknown_type.
    - now apply handle_missing_text.
    - now apply handle_missing_error. }
  rewrite E. repeat split.
Qed.

Lemma C10_unhandled_message_is_inert_witness :
  let s := set_accumulatedBotText "Hi" new_RTVIVoiceService in
  state_of (handleRTVIMessage (bare "bot-interrupted") s) = s /\
  state_of (handleRTVIMessage (bare "bot-llm-text") s) = s /\
  calls (effects (handleRTVIMessage
                    {| msg_type := "error";
                       msg_data := Some {| data_text := None;
                                           data_final := None;
                                           data_error := Some "" |} |}
                    (set_callbacks
                       {| onUserTranscript := true; onBotTranscript := true;
                          onBotStartedSpeaking := true;
                          onBotStoppedSpeaking := true;
                          onUserStartedSpeaking := true;
                          onUserStoppedSpeaking := true;
                          onConnectionStateChange := true;
                          onError := true |} s))) = [].
Proof.
  intros s. split; [| split].
  - apply (C10_unhandled_message_is_inert (bare "bot-interrupted") s).
    left. cbn. intros H.
    repeat (destruct H as [H | H]; [discriminate H |]). exact H.
  - apply (C10_unhandled_message_is_inert (bare "bot-llm-text") s).
    right. left. split; [right; left; reflexivity | reflexivity].
  - apply (C10_unhandled_message_is_inert
             {| msg_type := "error";
                msg_data := Some {| data_text := None; data_final := None;
                                    data_error := Some "" |} |}).
    right. right. split; [reflexivity | right; reflexivity].
Defined.

Lemma set_dc_same (s : Service) (v : option RTCDataChannel) :
  dc s = v -> set_dc v s = s.
Proof.
  destruct s; cbn; intros <-; reflexivity.
Qed.

Lemma run_cons (a : Action) (rest : list Action) (s : Service) :
  run (a :: rest) s =
    (fst (run rest (state_of (act a s))),
     effects (act a s) ++ snd (run rest (state_of (act a s)))).
Proof.
  cbn [run]. unfold state_of, effects.
  destruct (act a s) as [[c s1] t1]. cbn [fst snd].
  destruct (run rest s1) as [s2 t2]. reflexivity.
Qed.

Lemma run_app (first rest : list Action) (s : Service) :
  run (first ++ rest) s =
    (fst (run rest (fst (run first s))),
     snd (run first s) ++ snd (run rest (fst (run first s)))).
Proof.
  revert s. induction first as [| a first IH]; intros s.
  - cbn. destruct (run rest s). reflexivity.
  - cbn [app]. rewrite !run_cons, IH. cbn [fst snd].
    rewrite app_assoc. reflexivity.
Qed.

Lemma onmessage_malformed (data : string) (e : JsError) (s : Service) :
  dc_onmessage data (inl e) s =
    (Normal tt, s, [Console LevelWarn "[RTVI] Failed to parse message:"]).
Proof.
  reflexivity.
Qed.

Lemma fire_malformed (data : string) (e : JsError) (s : Service) :
  fire (EvChannelMessage data (inl e)) s =
    (Normal tt, s,
     match dc s with
     | Some channel =>
         if dc_handlers channel
         then [Console LevelWarn "[RTVI] Failed to parse message:"]
         else []
     | None => []
     end).
Proof.
  unfold fire, on_dc.
  destruct (dc s) as [channel |] eqn:E; [| reflexivity].
  cbn zeta. rewrite (set_dc_same s (Some channel) E).
  destruct (dc_handlers channel); reflexivity.
Qed.

(** C8. A frame that [JSON.parse] rejects is dropped by the message handler
    with a console warning: the handler completes normally, invokes no
    callback (so never the error callback), sends nothing and leaves the
    service as it was, so whatever follows the bad frame ends in the same
    state, with the same callback invocations and the same frames sent, as
    if the bad frame had never arrived. *)
Theorem C8_malformed_frame_is_dropped
  (data : string) (e : JsError) (s : Service) (rest : list Action) :
  let bad := EvChannelMessage data (inl e) in
  dc_onmessage data (inl e) s =
    (Normal tt, s, [Console LevelWarn "[RTVI] Failed to parse message:"]) /\
  completion (fire bad s) = Normal tt /\
  state_of (fire bad s) = s /\
  calls (effects (fire bad s)) = [] /\
  fst (run (Fire bad :: rest) s) = fst (run rest s) /\
  calls (snd (run (Fire bad :: rest) s)) = calls (snd (run rest s)) /\
  frames (snd (run (Fire bad :: rest) s)) = frames (snd (run rest s)).
Proof.
  intros bad.
  assert (F : exists t, fire bad s = (Normal tt, s, t) /\
                        calls t = [] /\ frames t = []).
  { unfold bad. rewrite fire_malformed. eexists. split; [reflexivity |].
    destruct (dc s) as [channel |]; [| split; reflexivity].
    destruct (dc_handlers channel); split; reflexivity. }
  destruct F as (t & F & Hc & Hf).
  split; [apply onmessage_malformed |].
  rewrite run_cons. cbn [act]. rewrite F.
  unfold completion, state_of, effects. cbn [fst snd].
  rewrite calls_app, frames_app, Hc, Hf.
  repeat split.
Qed.

(** ** Microphone *)

Lemma disconnect_state (s : Service) :
  completion (disconnect s) = Normal tt /\
  state_of (disconnect s) = pre_connect s.
Proof.
  destruct s as [[?|] [?|] [?|] [?|] ? ? [] ? ?];
    destruct onConnectionStateChange0; split; reflexivity.
Qed.

Lemma muted_tracks_first (tracks : list MediaStreamTrack) :
  match
    filter is_audio
      (map (fun t => if is_audio t then with_enabled false t else t) tracks)
  with
  | audioTrack :: _ => negb (enabled audioTrack)
  | [] => true
  end = true.
Proof.
  induction tracks as [| t tracks IH]; [reflexivity |].
  cbn [map filter].
  destruct (is_audio t) eqn:E.
  - unfold is_audio in *. cbn. rewrite E. reflexivity.
  - rewrite E. exact IH.
Qed.

Lemma is_audio_with_enabled (b : bool) (t : MediaStreamTrack) :
  is_audio (with_enabled b t) = is_audio t.
Proof.
  reflexivity.
Qed.

Lemma muted_tracks_others (b : bool) (tracks : list MediaStreamTrack) :
  filter (fun t => negb (is_audio t))
    (map (fun t => if is_audio t then with_enabled b t else t) tracks) =
  filter (fun t => negb (is_audio t)) tracks.
Proof.
  induction tracks as [| t tracks IH]; [reflexivity |].
  cbn [map filter].
  destruct (is_audio t) eqn:E.
  - rewrite is_audio_with_enabled, E. exact IH.
  - rewrite E. cbn [negb]. rewrite IH. reflexivity.
Qed.

(** C9. [setMicMuted(true)] disables every local audio track and removes
    none (the stream keeps its tracks, in order, with the same identity and
    kind, and tracks that are not audio are untouched), so [isMicMuted] then
    reads [true]; without a local stream, never acquired or dropped by
    [disconnect], [isMicMuted] reads [true]. *)
Theorem C9_mute_and_fail_safe (s : Service) :
  let r := setMicMuted true s in
  completion r = Normal tt /\
  isMicMuted (state_of r) = true /\
  (forall stream, localStream s = Some stream ->
     exists muted, localStream (state_of r) = Some muted /\
       map track_id (getTracks muted) = map track_id (getTracks stream) /\
       map kind (getTracks muted) = map kind (getTracks stream) /\
       (forall t, In t (getAudioTracks muted) -> enabled t = false) /\
       filter (fun t => negb (is_audio t)) (getTracks muted) =
         filter (fun t => negb (is_audio t)) (getTracks stream)) /\
  (localStream s = None -> isMicMuted s = true) /\
  isMicMuted new_RTVIVoiceService = true /\
  isMicMuted (state_of (disconnect s)) = true.
Proof.
  intros r.
  assert (D : isMicMuted (state_of (disconnect s)) = true).
  { rewrite (proj2 (disconnect_state s)). reflexivity. }
  revert D. generalize (isMicMuted (state_of (disconnect s))). intros d D.
  unfold r, setMicMuted, bind, get, modify, console, emit, ret.
  unfold completion, state_of, effects.
  destruct (localStream s) as [stream |] eqn:E; cbn [fst snd negb].
  - split; [reflexivity |]. split.
    { unfold isMicMuted, getAudioTracks. cbn. apply muted_tracks_first. }
    split.
    { intros stream' [= <-]. eexists. split; [reflexivity |]. cbn.
      rewrite !map_map.
      split; [| split; [| split]].
      - apply map_ext. intros t. destruct (is_audio t); reflexivity.
      - apply map_ext. intros t. destruct (is_audio t); reflexivity.
      - intros t. unfold getAudioTracks. cbn. rewrite filter_In, in_map_iff.
        intros [[t0 [Ht0 _]] Ha]. subst t.
        destruct (is_audio t0) eqn:E0; [reflexivity | congruence].
      - apply muted_tracks_others. }
    split; [discriminate |]. split; [reflexivity |].
    exact D.
  - split; [reflexivity |]. split.
    { unfold isMicMuted. rewrite E. reflexivity. }
    split; [discriminate |].
    split; [intros _; unfold isMicMuted; rewrite E; reflexivity |].
    split; [reflexivity | exact D].
Qed.

Lemma C9_mute_and_fail_safe_witness :
  let stream :=
    {| stream_id := "local";
       getTracks := [ {| track_id := "mic"; kind := "audio";
                         enabled := true |};
                      {| track_id := "cam"; kind := "video";
                         enabled := true |} ] |} in
  let s := set_localStream (Some stream) new_RTVIVoiceService in
  isMicMuted (state_of (setMicMuted true s)) = true /\
  (exists muted,
     localStream (state_of (setMicMuted true s)) = Some muted /\
     map track_id (getTracks muted) = map track_id (getTracks stream) /\
     map kind (getTracks muted) = map kind (getTracks stream) /\
     (forall t, In t (getAudioTracks muted) -> enabled t = false) /\
     filter (fun t => negb (is_audio t)) (getTracks muted) =
       filter (fun t => negb (is_audio t)) (getTracks stream)) /\
  isMicMuted (set_localStream None s) = true.
Proof.
  intros stream s.
  destruct (C9_mute_and_fail_safe s) as (_ & Muted & Kept & _).
  destruct (C9_mute_and_fail_safe (set_localStream None s))
    as (_ & _ & _ & Safe & _).
  split; [exact Muted |].
  split; [apply (Kept stream); reflexivity | apply Safe; reflexivity].
Defined.

(** ** Teardown *)

(** C5. [disconnect] is idempotent: called twice in a row on any service it
    completes normally both times, and the service after the second call is
    the service after the first, in which the peer connection, the data
    channel, the local stream, the playback sink and the session id are
    [null], the connected flag is [false] and the accumulated text is empty,
    the values of a service that never connected. *)
Theorem C5_disconnect_idempotent (s : Service) :
  let r1 := disconnect s in
  let r2 := disconnect (state_of r1) in
  completion r1 = Normal tt /\
  completion r2 = Normal tt /\
  state_of r2 = state_of r1 /\
  pc (state_of r1) = pc new_RTVIVoiceService /\
  dc (state_of r1) = dc new_RTVIVoiceService /\
  localStream (state_of r1) = localStream new_RTVIVoiceService /\
  remoteAudio (state_of r1) = remoteAudio new_RTVIVoiceService /\
  sessionId (state_of r1) = sessionId new_RTVIVoiceService /\
  _connected (state_of r1) = _connected new_RTVIVoiceService /\
  accumulatedBotText (state_of r1) =
    accumulatedBotText new_RTVIVoiceService /\
  state_of r1 =
    {| pc := None; dc := None; localStream := None; remoteAudio := None;
       sessionId := None; serverUrl := serverUrl s;
       callbacks := callbacks s; _connected := false;
       accumulatedBotText := "" |}.
Proof.
  intros r1 r2. unfold r2, r1.
  destruct (disconnect_state s) as [C1 S1].
  destruct (disconnect_state (state_of (disconnect s))) as [C2 S2].
  rewrite C1, C2, S2, S1. cbn.
  repeat split.
Qed.

(** ** Composing relations along the code *)

Lemma bind_run {A B} (m : M A) (k : A -> M B) (s : Service) :
  bind m k s =
    match completion (m s) with
    | Normal a =>
        (completion (k a (state_of (m s))),
         state_of (k a (state_of (m s))),
         effects (m s) ++ effects (k a (state_of (m s))))
    | Throw e => (Throw e, state_of (m s), effects (m s))
    end.
Proof.
  unfold bind, completion, state_of, effects.
  destruct (m s) as [[[a | e] s1] t1]; cbn [fst snd]; [| reflexivity].
  destruct (k a s1) as [[c s2] t2]. reflexivity.
Qed.

Lemma try_catch_run {A} (body : M A) (handler : JsError -> M A)
  (s : Service) :
  try_catch body handler s =
    match completion (body s) with
    | Normal a => (Normal a, state_of (body s), effects (body s))
    | Throw e =>
        (completion (handler e (state_of (body s))),
         state_of (handler e (state_of (body s))),
         effects (body s) ++ effects (handler e (state_of (body s))))
    end.
Proof.
  unfold try_catch, completion, state_of, effects.
  destruct (body s) as [[[a | e] s1] t1]; cbn [fst snd]; [reflexivity |].
  destruct (handler e s1) as [[c s2] t2]. reflexivity.
Qed.

Section Respects.

Variable R : Service -> Service -> list Effect -> Prop.
Hypothesis R_refl : forall s, R s s [].
Hypothesis R_trans : forall s1 s2 s3 t1 t2,
  R s1 s2 t1 -> R s2 s3 t2 -> R s1 s3 (t1 ++ t2).

Lemma respects_ret {A} (a : A) : respects R (ret a).
Proof. intros s. apply R_refl. Qed.

Lemma respects_throw {A} (e : JsError) : respects R (@throw A e).
Proof. intros s. apply R_refl. Qed.

Lemma respects_get : respects R get.
Proof. intros s. apply R_refl. Qed.

Lemma respects_settle {A} (r : JsError + A) : respects R (settle r).
Proof. destruct r; intros s; apply R_refl. Qed.

Lemma respects_modify (f : Service -> Service) :
  (forall s, R s (f s) []) -> respects R (modify f).
Proof. intros H s. apply H. Qed.

Lemma respects_emit (e : Effect) :
  (forall s, R s s [e]) -> respects R (emit e).
Proof. intros H s. apply H. Qed.

Lemma respects_emit_all (es : list Effect) :
  (forall s, R s s es) -> respects R (emit_all es).
Proof. intros H s. apply H. Qed.

Lemma respects_console (level : ConsoleLevel) (message : string) :
  (forall s, R s s [Console level message]) ->
  respects R (console level message).
Proof. intros H s. apply H. Qed.

Lemma respects_call (hook : RTVICallbacks -> bool) (c : CallbackCall) :
  (forall s, R s s [Call c]) -> respects R (call hook c).
Proof.
  intros H s. unfold call, state_of, effects.
  destruct (hook (callbacks s)); cbn; [apply H | apply R_refl].
Qed.

Lemma respects_bind {A B} (m : M A) (k : A -> M B) :
  respects R m -> (forall a, respects R (k a)) -> respects R (bind m k).
Proof.
  intros Hm Hk s. rewrite bind_run.
  destruct (completion (m s)) as [a | e];
    unfold state_of at 1, effects at 1; cbn [fst snd].
  - eapply R_trans; [apply Hm | apply Hk].
  - apply Hm.
Qed.

Lemma respects_try_catch {A} (body : M A) (handler : JsError -> M A) :
  respects R body -> (forall e, respects R (handler e)) ->
  respects R (try_catch body handler).
Proof.
  intros Hb Hh s. rewrite try_catch_run.
  destruct (completion (body s)) as [a | e];
    unfold state_of at 1, effects at 1; cbn [fst snd].
  - apply Hb.
  - eapply R_trans; [apply Hb | apply Hh].
Qed.

Lemma respects_isolate (handler : M unit) :
  respects R handler -> respects R (isolate handler).
Proof.
  intros H s. specialize (H s). unfold isolate, state_of, effects in *.
  destruct (handler s) as [[c s1] t1]. exact H.
Qed.

Lemma respects_on_pc (update : RTCPeerConnection -> RTCPeerConnection)
  (handler : M unit) :
  (forall s p, pc s = Some p -> R s (set_pc (Some (update p)) s) []) ->
  respects R handler -> respects R (on_pc update handler).
Proof.
  intros Hu Hh s. unfold on_pc.
  destruct (pc s) as [p |] eqn:E; [| apply R_refl].
  cbn zeta. destruct (pc_handlers p).
  - exact (R_trans _ _ _ [] _ (Hu s p E)
             (respects_isolate handler Hh (set_pc (Some (update p)) s))).
  - apply (Hu s p E).
Qed.

Lemma respects_on_dc (update : RTCDataChannel -> RTCDataChannel)
  (handler : M unit) :
  (forall s c, dc s = Some c -> R s (set_dc (Some (update c)) s) []) ->
  respects R handler -> respects R (on_dc update handler).
Proof.
  intros Hu Hh s. unfold on_dc.
  destruct (dc s) as [c |] eqn:E; [| apply R_refl].
  cbn zeta. destruct (dc_handlers c).
  - exact (R_trans _ _ _ [] _ (Hu s c E)
             (respects_isolate handler Hh (set_dc (Some (update c)) s))).
  - apply (Hu s c E).
Qed.

Lemma respects_fire_all (es : list Event) :
  (forall e, In e es -> respects R (fire e)) -> respects R (fire_all es).
Proof.
  induction es as [| e es IH]; intros H; cbn [fire_all].
  - apply respects_ret.
  - apply respects_bind.
    + apply H. left. reflexivity.
    + intros _. apply IH. intros e' He'. apply H. right. exact He'.
Qed.

Lemma respects_await {A} (a : Awaited A) :
  (forall e, In e (during a) -> respects R (fire e)) ->
  respects R (await a).
Proof.
  intros H. unfold await. apply respects_bind.
  - apply respects_fire_all. exact H.
  - intros _. apply respects_settle.
Qed.

End Respects.

(** Walks the structure of a piece of service code, leaving one goal per
    state update, per effect, per [await] and per call of [negotiate] or
    [disconnect]. *)
Ltac respects_walk Hrefl Htrans :=
  repeat first
    [ match goal with
      | |- respects _ (await _) => fail 2
      | |- respects _ (negotiate _ _) => fail 2
      | |- respects _ disconnect => fail 2
      end
    | apply (respects_ret _ Hrefl)
    | apply (respects_throw _ Hrefl)
    | apply (respects_get _ Hrefl)
    | apply (respects_settle _ Hrefl)
    | apply (respects_bind _ Htrans); [| intros ?]
    | apply (respects_try_catch _ Htrans); [| intros ?]
    | apply (respects_call _ Hrefl)
    | apply respects_modify
    | apply respects_emit
    | apply respects_emit_all
    | apply respects_console
    | match goal with
      | |- respects _ (let _ := _ in _) => cbv zeta
      | |- respects _ (if ?b then _ else _) => destruct b
      | |- respects _ (match ?x with _ => _ end) => destruct x
      end ].

(** ** What the service emits *)

Lemma emits_refl (Q : Effect -> Prop) (s : Service) : emits Q s s [].
Proof. constructor. Qed.

Lemma emits_trans (Q : Effect -> Prop) (s1 s2 s3 : Service)
  (t1 t2 : list Effect) :
  emits Q s1 s2 t1 -> emits Q s2 s3 t2 -> emits Q s1 s3 (t1 ++ t2).
Proof.
  unfold emits. intros H1 H2. apply Forall_app. split; assumption.
Qed.

Ltac emits_atoms :=
  intros; unfold emits; repeat constructor; cbn; auto.

Section Emits.

Variable Pf : json -> Prop.
Variable Pc : string -> Prop.

Local Abbreviation Q := (effect_ok Pf Pc).

Lemma emits_handleRTVIMessage (message : RTVIMessage) :
  respects (emits Q) (handleRTVIMessage message).
Proof.
  unfold handleRTVIMessage.
  respects_walk (emits_refl Q) (emits_trans Q); emits_atoms.
Qed.

Lemma emits_dc_onmessage (data : string) (parsed : JsError + RTVIMessage) :
  respects (emits Q) (dc_onmessage data parsed).
Proof.
  unfold dc_onmessage.
  apply (respects_try_catch _ (emits_trans Q)).
  - apply (respects_bind _ (emits_trans Q)).
    + destruct parsed; respects_walk (emits_refl Q) (emits_trans Q).
    + intros message. apply emits_handleRTVIMessage.
  - intros _. respects_walk (emits_refl Q) (emits_trans Q); emits_atoms.
Qed.

Lemma emits_dc_onopen (uuid : string) :
  Pf (clientReadyMessage uuid) -> respects (emits Q) (dc_onopen uuid).
Proof.
  intros H. unfold dc_onopen, sendClientReady.
  respects_walk (emits_refl Q) (emits_trans Q); emits_atoms.
Qed.

Lemma emits_ice_state (state : string) :
  Pc (or_unknown (Some state)) ->
  respects (emits Q) (fire (EvIceConnectionState state)).
Proof.
  intros H s. unfold fire, on_pc.
  destruct (pc s) as [p |]; [| constructor].
  cbn zeta. destruct (pc_handlers p); [| constructor].
  unfold isolate, pc_oniceconnectionstatechange, bind, get, console, emit,
    call, modify, ret, state_of, effects.
  cbn [pc set_pc option_map iceConnectionState with_iceConnectionState
       callbacks fst snd].
  destruct (onConnectionStateChange (callbacks s));
    destruct (terminal (or_unknown (Some state)));
    cbn; unfold emits; repeat constructor; exact H.
Qed.

Lemma emits_pc_update (f : RTCPeerConnection -> RTCPeerConnection)
  (s : Service) (p : RTCPeerConnection) :
  pc s = Some p -> emits Q s (set_pc (Some (f p)) s) [].
Proof. constructor. Qed.

Lemma emits_dc_update (f : RTCDataChannel -> RTCDataChannel)
  (s : Service) (c : RTCDataChannel) :
  dc s = Some c -> emits Q s (set_dc (Some (f c)) s) [].
Proof. constructor. Qed.

Lemma emits_fire (e : Event) :
  event_ok Pf Pc e -> respects (emits Q) (fire e).
Proof.
  destruct e; cbn [event_ok fire]; intros H.
  - apply (respects_on_pc _ (emits_refl Q) (emits_trans Q));
      [apply emits_pc_update |].
    unfold pc_ontrack.
    respects_walk (emits_refl Q) (emits_trans Q); emits_atoms.
  - apply (respects_on_pc _ (emits_refl Q) (emits_trans Q));
      [apply emits_pc_update |].
    unfold pc_ondatachannel, setupDataChannelHandlers.
    respects_walk (emits_refl Q) (emits_trans Q); emits_atoms.
  - apply emits_ice_state. exact H.
  - apply (respects_on_pc _ (emits_refl Q) (emits_trans Q));
      [apply emits_pc_update |].
    unfold pc_onconnectionstatechange.
    respects_walk (emits_refl Q) (emits_trans Q); emits_atoms.
  - apply (respects_on_pc _ (emits_refl Q) (emits_trans Q));
      [apply emits_pc_update |].
    unfold pc_onicecandidate.
    respects_walk (emits_refl Q) (emits_trans Q); emits_atoms.
  - apply (respects_on_dc _ (emits_refl Q) (emits_trans Q));
      [apply emits_dc_update |].
    apply emits_dc_onopen. exact H.
  - apply (respects_on_dc _ (emits_refl Q) (emits_trans Q));
      [apply emits_dc_update |].
    unfold dc_onclose.
    respects_walk (emits_refl Q) (emits_trans Q); emits_atoms.
  - apply (respects_on_dc _ (emits_refl Q) (emits_trans Q));
      [apply emits_dc_update |].
    apply emits_dc_onmessage.
Qed.

Lemma emits_disconnect :
  Pc "disconnected" -> respects (emits Q) disconnect.
Proof.
  intros H. unfold disconnect.
  respects_walk (emits_refl Q) (emits_trans Q); emits_atoms.
  apply Forall_forall. intros e He.
  apply in_map_iff in He. destruct He as [t [<- _]]. exact I.
Qed.

Lemma emits_setMicMuted (muted : bool) :
  respects (emits Q) (setMicMuted muted).
Proof.
  unfold setMicMuted.
  respects_walk (emits_refl Q) (emits_trans Q); emits_atoms.
Qed.

Lemma emits_addTracks (tracks : list MediaStreamTrack) :
  respects (emits Q) (addTracks tracks).
Proof.
  induction tracks as [| t tracks IH]; cbn [addTracks].
  - apply (respects_ret _ (emits_refl Q)).
  - unfold this_pc, update_pc.
    respects_walk (emits_refl Q) (emits_trans Q);
      try exact IH; emits_atoms.
Qed.

Lemma emits_await {A} (a : Awaited A) (env : ConnectEnv) :
  Forall (event_ok Pf Pc) (events_during env) ->
  (forall e, In e (during a) -> In e (events_during env)) ->
  respects (emits Q) (await a).
Proof.
  intros H Hin.
  apply (respects_await _ (emits_refl Q) (emits_trans Q)).
  intros e He. apply emits_fire.
  rewrite Forall_forall in H. apply H, Hin, He.
Qed.

Lemma emits_negotiate (config : RTVIConfig) (env : ConnectEnv) :
  Forall (event_ok Pf Pc) (events_during env) ->
  respects (emits Q) (negotiate config env).
Proof.
  intros H.
  assert (W : forall A (a : Awaited A),
            (forall e, In e (during a) -> In e (events_during env)) ->
            respects (emits Q) (await a)).
  { intros A a Hin. exact (emits_await a env H Hin). }
  unfold negotiate, step1_create_session, step2_create_peer_connection,
    step3_local_stream, step4_create_offer, step5_exchange_offer,
    step6_set_remote_description, setupPeerConnectionHandlers, this_pc,
    update_pc.
  respects_walk (emits_refl Q) (emits_trans Q);
    try apply emits_addTracks;
    try (apply W; unfold events_during; intros e He;
         repeat rewrite in_app_iff; tauto);
    emits_atoms.
Qed.

End Emits.

Section EmitsRun.

Variable Pf : json -> Prop.
Variable Pc : string -> Prop.
Hypothesis Pc_connected : Pc "connected".
Hypothesis Pc_disconnected : Pc "disconnected".

Local Abbreviation Q := (effect_ok Pf Pc).

Lemma emits_connect (config : RTVIConfig) (cbs : RTVICallbacks)
  (env : ConnectEnv) :
  Forall (event_ok Pf Pc) (events_during env) ->
  respects (emits Q) (connect config cbs env).
Proof.
  intros H. unfold connect, connect_steps, report_connected, connect_failed.
  respects_walk (emits_refl Q) (emits_trans Q);
    try (apply emits_negotiate; exact H);
    try (apply emits_disconnect; exact Pc_disconnected);
    emits_atoms.
Qed.

Lemma emits_act (a : Action) :
  Forall (event_ok Pf Pc) (events_of a) -> respects (emits Q) (act a).
Proof.
  destruct a; cbn [events_of act]; intros H.
  - apply emits_connect. exact H.
  - apply emits_disconnect. exact Pc_disconnected.
  - apply emits_setMicMuted.
  - apply emits_fire. inversion H. assumption.
Qed.

Lemma emits_run (actions : list Action) (s : Service) :
  Forall (event_ok Pf Pc) (flat_map events_of actions) ->
  Forall Q (snd (run actions s)).
Proof.
  revert s. induction actions as [| a rest IH]; intros s H.
  - constructor.
  - cbn [flat_map] in H. apply Forall_app in H. destruct H as [Ha Hrest].
    rewrite run_cons. cbn [snd]. apply Forall_app. split.
    + apply (emits_act a Ha s).
    + apply IH. exact Hrest.
Qed.

End EmitsRun.

Lemma frames_ok (Pf : json -> Prop) (Pc : string -> Prop)
  (t : list Effect) :
  Forall (effect_ok Pf Pc) t -> Forall Pf (frames t).
Proof.
  induction 1 as [| e t He _ IH]; [constructor |].
  destruct e; cbn [frames]; try exact IH.
  constructor; [exact He | exact IH].
Qed.

Lemma length_slice (n : nat) (s : string) :
  n <= String.length s -> String.length (substring 0 n s) = n.
Proof.
  revert s. induction n as [| n IH]; intros s H.
  - destruct s; reflexivity.
  - destruct s as [| c s]; cbn in *; [lia |].
    rewrite IH; [reflexivity | lia].
Qed.

(** ** The handshake frame *)

Lemma fire_open (uuid : string) (channel : RTCDataChannel) (s : Service) :
  dc s = Some channel -> dc_handlers channel = true ->
  fire (EvChannelOpen uuid) s =
    (Normal tt, set_dc (Some (with_readyState "open" channel)) s,
     [ Console LevelLog "[RTVI] Data channel open";
       ChannelSend (label channel) (clientReadyMessage uuid);
       Console LevelLog "[RTVI] Sent client-ready message" ]).
Proof.
  intros Hdc Hh. unfold fire, on_dc. rewrite Hdc. cbn zeta. rewrite Hh.
  reflexivity.
Qed.

(** *** Every service a run reaches has its handlers installed *)

Lemma stays_installed_refl (s : Service) : stays_installed s s [].
Proof. intros H. exact H. Qed.

Lemma stays_installed_trans (s1 s2 s3 : Service) (t1 t2 : list Effect) :
  stays_installed s1 s2 t1 -> stays_installed s2 s3 t2 ->
  stays_installed s1 s3 (t1 ++ t2).
Proof. unfold stays_installed. auto. Qed.

(** A state update that leaves the two objects alone, or rewrites the peer
    connection without touching its handlers. *)
Ltac installed_atoms :=
  intros; unfold stays_installed, installed; cbn;
  let Hp := fresh "Hp" in
  let Hd := fresh "Hd" in
  intros [Hp Hd];
  repeat match goal with
         | |- context [match pc ?s with _ => _ end] => destruct (pc s) eqn:?
         end;
  cbn;
  (split;
   [ let q := fresh "q" in
     let Hq := fresh "Hq" in
     intros q Hq; first [ injection Hq as <-; cbn; apply Hp; reflexivity
                        | apply Hp; assumption
                        | congruence ]
   | assumption ]).

Lemma installed_handleRTVIMessage (message : RTVIMessage) :
  respects stays_installed (handleRTVIMessage message).
Proof.
  unfold handleRTVIMessage.
  respects_walk stays_installed_refl stays_installed_trans; installed_atoms.
Qed.

Lemma installed_pc_update (f : RTCPeerConnection -> RTCPeerConnection) :
  (forall p, pc_handlers (f p) = pc_handlers p) ->
  forall s p, pc s = Some p -> stays_installed s (set_pc (Some (f p)) s) [].
Proof.
  intros Hf s p Hpc [Hp Hd]. split; [| exact Hd].
  cbn. intros q [= <-]. rewrite Hf. apply Hp. exact Hpc.
Qed.

Lemma installed_dc_update (f : RTCDataChannel -> RTCDataChannel) :
  (forall c, dc_handlers (f c) = dc_handlers c) ->
  forall s c, dc s = Some c -> stays_installed s (set_dc (Some (f c)) s) [].
Proof.
  intros Hf s c Hdc [Hp Hd]. split; [exact Hp |].
  cbn. intros q [= <-]. rewrite Hf. apply Hd. exact Hdc.
Qed.

(** The announced channel is stored, then [setupDataChannelHandlers]
    installs the handlers on it. *)
Lemma installed_pc_ondatachannel (channel : RTCDataChannel) :
  respects stays_installed (pc_ondatachannel channel).
Proof.
  intros s [Hp Hd]. split; [exact Hp |].
  cbn. intros q [= <-]. reflexivity.
Qed.

Lemma installed_fire (e : Event) : respects stays_installed (fire e).
Proof.
  destruct e; cbn [fire].
  - apply (respects_on_pc _ stays_installed_refl stays_installed_trans);
      [apply installed_pc_update; reflexivity |].
    unfold pc_ontrack.
    respects_walk stays_installed_refl stays_installed_trans;
      installed_atoms.
  - apply (respects_on_pc _ stays_installed_refl stays_installed_trans);
      [apply installed_pc_update; reflexivity |].
    apply installed_pc_ondatachannel.
  - apply (respects_on_pc _ stays_installed_refl stays_installed_trans);
      [apply installed_pc_update; reflexivity |].
    unfold pc_oniceconnectionstatechange.
    respects_walk stays_installed_refl stays_installed_trans;
      installed_atoms.
  - apply (respects_on_pc _ stays_installed_refl stays_installed_trans);
      [apply installed_pc_update; reflexivity |].
    unfold pc_onconnectionstatechange.
    respects_walk stays_installed_refl stays_installed_trans;
      installed_atoms.
  - apply (respects_on_pc _ stays_installed_refl stays_installed_trans);
      [apply installed_pc_update; reflexivity |].
    unfold pc_onicecandidate.
    respects_walk stays_installed_refl stays_installed_trans;
      installed_atoms.
  - apply (respects_on_dc _ stays_installed_refl stays_installed_trans);
      [apply installed_dc_update; reflexivity |].
    unfold dc_onopen, sendClientReady.
    respects_walk stays_installed_refl stays_installed_trans;
      installed_atoms.
  - apply (respects_on_dc _ stays_installed_refl stays_installed_trans);
      [apply installed_dc_update; reflexivity |].
    unfold dc_onclose.
    respects_walk stays_installed_refl stays_installed_trans;
      installed_atoms.
  - apply (respects_on_dc _ stays_installed_refl stays_installed_trans);
      [apply installed_dc_update; reflexivity |].
    unfold dc_onmessage.
    apply (respects_try_catch _ stays_installed_trans).
    + apply (respects_bind _ stays_installed_trans).
      * destruct parsed;
          respects_walk stays_installed_refl stays_installed_trans.
      * intros message. apply installed_handleRTVIMessage.
    + intros _.
      respects_walk stays_installed_refl stays_installed_trans;
        installed_atoms.
Qed.

Lemma installed_await {A} (a : Awaited A) :
  respects stays_installed (await a).
Proof.
  apply (respects_await _ stays_installed_refl stays_installed_trans).
  intros e _. apply installed_fire.
Qed.

Lemma installed_addTracks (tracks : list MediaStreamTrack) :
  respects stays_installed (addTracks tracks).
Proof.
  induction tracks as [| t tracks IH]; cbn [addTracks].
  - apply (respects_ret _ stays_installed_refl).
  - unfold this_pc, update_pc.
    respects_walk stays_installed_refl stays_installed_trans;
      try exact IH; installed_atoms.
Qed.

(** The new peer connection is stored, then [setupPeerConnectionHandlers]
    installs the handlers on it. *)
Lemma installed_step2 (env : ConnectEnv) (body : StartBody) :
  respects stays_installed (step2_create_peer_connection env body).
Proof.
  intros s [Hp Hd]. unfold step2_create_peer_connection.
  destruct (peerConstruct env) as [e | []]; cbn; (split; [| exact Hd]).
  - exact Hp.
  - intros q [= <-]. reflexivity.
Qed.

Lemma installed_negotiate (config : RTVIConfig) (env : ConnectEnv) :
  respects stays_installed (negotiate config env).
Proof.
  unfold negotiate.
  apply (respects_bind _ stays_installed_trans).
  { unfold step1_create_session.
    respects_walk stays_installed_refl stays_installed_trans;
      try apply installed_await; installed_atoms. }
  intros body.
  apply (respects_bind _ stays_installed_trans);
    [apply installed_step2 | intros _].
  unfold step3_local_stream, step4_create_offer, step5_exchange_offer,
    step6_set_remote_description, this_pc, update_pc.
  respects_walk stays_installed_refl stays_installed_trans;
    try apply installed_await; try apply installed_addTracks;
    installed_atoms.
Qed.

Lemma installed_disconnect : respects stays_installed disconnect.
Proof.
  intros s _. rewrite (proj2 (disconnect_state s)).
  split; intros q Hq; discriminate Hq.
Qed.

Lemma installed_act (a : Action) : respects stays_installed (act a).
Proof.
  destruct a; cbn [act].
  - unfold connect, connect_steps, report_connected, connect_failed.
    respects_walk stays_installed_refl stays_installed_trans;
      try apply installed_negotiate; try apply installed_disconnect;
      installed_atoms.
  - apply installed_disconnect.
  - unfold setMicMuted.
    respects_walk stays_installed_refl stays_installed_trans;
      installed_atoms.
  - apply installed_fire.
Qed.

Lemma installed_run (actions : list Action) (s : Service) :
  installed s -> installed (fst (run actions s)).
Proof.
  revert s. induction actions as [| a rest IH]; intros s H; [exact H |].
  rewrite run_cons. cbn [fst]. apply IH. apply (installed_act a s H).
Qed.

Lemma installed_new : installed new_RTVIVoiceService.
Proof. split; intros q Hq; discriminate Hq. Qed.

(** C7. Take the service after any run of calls and events from a fresh
    instance, holding a control channel (one the peer connection announced,
    on which the service then installed its handlers).  When that channel
    reports open, the service sends one frame, the [client-ready] message:
    label "rtvi-ai", type "client-ready", the first eight characters of a
    random UUID as id, version "1.0.0".  Nothing is sent in a run without an
    open event, and in every run every frame sent, the first one in
    particular, is a [client-ready] message. *)
Theorem C7_client_ready_on_open
  (before : list Action) (uuid : string) (channel : RTCDataChannel) :
  let s := fst (run before new_RTVIVoiceService) in
  dc s = Some channel ->
  String.length uuid = 36 ->
  let r := fire (EvChannelOpen uuid) s in
  frames (effects r) =
    [ JObject [ ("label", JString "rtvi-ai");
                ("type", JString "client-ready");
                ("id", JString (substring 0 8 uuid));
                ("data", JObject [ ("version", JString "1.0.0") ]) ] ] /\
  String.length (substring 0 8 uuid) = 8 /\
  effects r =
    [ Console LevelLog "[RTVI] Data channel open";
      ChannelSend (label channel) (clientReadyMessage uuid);
      Console LevelLog "[RTVI] Sent client-ready message" ] /\
  frames (snd (run (before ++ [Fire (EvChannelOpen uuid)])
                 new_RTVIVoiceService)) =
    frames (snd (run before new_RTVIVoiceService)) ++
    [clientReadyMessage uuid] /\
  (forall actions s0,
     existsb is_open (flat_map events_of actions) = false ->
     frames (snd (run actions s0)) = []) /\
  (forall actions s0 first others,
     frames (snd (run actions s0)) = first :: others ->
     exists u, first = clientReadyMessage u) /\
  (forall actions s0,
     Forall (fun frame => exists u, frame = clientReadyMessage u)
       (frames (snd (run actions s0)))).
Proof.
  intros s Hdc Hlen r.
  assert (Only : forall actions s0,
     Forall (fun frame => exists u, frame = clientReadyMessage u)
       (frames (snd (run actions s0)))).
  { intros actions s0.
    apply (frames_ok _ (fun _ => True)).
    apply emits_run; try exact I.
    apply Forall_forall. intros e _. destruct e; cbn; eauto. }
  assert (Hh : dc_handlers channel = true).
  { apply (proj2 (installed_run before new_RTVIVoiceService installed_new)).
    exact Hdc. }
  assert (E : r =
    (Normal tt, set_dc (Some (with_readyState "open" channel)) s,
     [ Console LevelLog "[RTVI] Data channel open";
       ChannelSend (label channel) (clientReadyMessage uuid);
       Console LevelLog "[RTVI] Sent client-ready message" ])).
  { unfold r. apply fire_open; assumption. }
  split; [rewrite E; reflexivity |].
  split; [apply length_slice; lia |].
  split; [rewrite E; reflexivity |].
  split.
  { rewrite run_app. cbn [snd]. rewrite frames_app. f_equal.
    rewrite run_cons. cbn [run snd act]. rewrite app_nil_r.
    fold s. fold r. rewrite E. reflexivity. }
  split; [| split; [| exact Only]].
  - intros actions s0 Hno.
    assert (F : Forall (fun _ : json => False)
                  (frames (snd (run actions s0)))).
    { apply (frames_ok _ (fun _ => True)).
      apply emits_run; try exact I.
      apply Forall_forall. intros e He.
      destruct e; cbn; try exact I.
      exfalso.
      assert (X : existsb is_open (flat_map events_of actions) = true).
      { apply existsb_exists. eexists. split; [exact He | reflexivity]. }
      congruence. }
    destruct (frames (snd (run actions s0))); [reflexivity |].
    inversion F. contradiction.
  - intros actions s0 first others E'.
    specialize (Only actions s0). rewrite E' in Only.
    inversion Only. assumption.
Qed.

Lemma C7_client_ready_on_open_witness :
  let before := [ Connect scenario_config all_callbacks scenario_env;
                  Fire (EvDataChannel "rtvi" "connecting") ] in
  let uuid := "123e4567-e89b-12d3-a456-426614174000" in
  frames (effects (fire (EvChannelOpen uuid)
                     (fst (run before new_RTVIVoiceService)))) =
    [ JObject [ ("label", JString "rtvi-ai");
                ("type", JString "client-ready");
                ("id", JString "123e4567");
                ("data", JObject [ ("version", JString "1.0.0") ]) ] ] /\
  frames (snd (run (before ++ [Fire (EvChannelOpen uuid)])
                 new_RTVIVoiceService)) =
    [ clientReadyMessage uuid ].
Proof.
  intros before uuid.
  destruct (C7_client_ready_on_open before uuid
              {| label := "rtvi"; dc_handlers := true;
                 readyState := "connecting" |} eq_refl eq_refl)
    as (Hframe & _ & _ & Hrun & _).
  split; [exact Hframe | exact Hrun].
Defined.

(** ** The connected flag under transport events *)

Lemma stays_down_refl (s : Service) : stays_down s s [].
Proof. intros H. exact H. Qed.

Lemma stays_down_trans (s1 s2 s3 : Service) (t1 t2 : list Effect) :
  stays_down s1 s2 t1 -> stays_down s2 s3 t2 -> stays_down s1 s3 (t1 ++ t2).
Proof. unfold stays_down. auto. Qed.

Ltac stays_down_atoms :=
  intros; unfold stays_down; cbn;
  repeat match goal with
         | |- context [match ?x with _ => _ end] => destruct x
         end;
  cbn; auto.

Lemma stays_down_handleRTVIMessage (message : RTVIMessage) :
  respects stays_down (handleRTVIMessage message).
Proof.
  unfold handleRTVIMessage.
  respects_walk stays_down_refl stays_down_trans; stays_down_atoms.
Qed.

Lemma or_unknown_connected (state : string) :
  (or_unknown (Some state) =? "connected") = (state =? "connected").
Proof.
  unfold or_unknown, truthy, show_opt.
  destruct (state =? "") eqn:E; [| reflexivity].
  apply String.eqb_eq in E. subst. reflexivity.
Qed.

Lemma terminal_or_unknown (state : string) :
  terminal (or_unknown (Some state)) = terminal state.
Proof.
  unfold or_unknown, truthy, show_opt.
  destruct (state =? "") eqn:E; [| reflexivity].
  apply String.eqb_eq in E. subst. reflexivity.
Qed.

Lemma terminal_not_connected (state : string) :
  terminal state = true -> (state =? "connected") = false.
Proof.
  unfold terminal. intros H.
  apply orb_true_iff in H. destruct H as [H | H];
    [apply orb_true_iff in H; destruct H as [H | H] |];
    apply String.eqb_eq in H; subst; reflexivity.
Qed.

Lemma fire_connection_state (state : string) (p : RTCPeerConnection)
  (s : Service) :
  pc s = Some p -> pc_handlers p = true ->
  _connected (state_of (fire (EvConnectionState state) s)) =
    if state =? "connected" then true
    else if terminal state then false
    else _connected s.
Proof.
  intros Hpc Hh. unfold fire, on_pc. rewrite Hpc. cbn zeta. rewrite Hh.
  unfold isolate, pc_onconnectionstatechange, bind, get, console, emit,
    modify, ret, state_of.
  cbn [pc set_pc option_map connectionState with_connectionState fst snd].
  rewrite or_unknown_connected, terminal_or_unknown.
  destruct (state =? "connected"); [reflexivity |].
  destruct (terminal state); reflexivity.
Qed.

Lemma fire_ice_state (state : string) (p : RTCPeerConnection) (s : Service) :
  pc s = Some p -> pc_handlers p = true ->
  _connected (state_of (fire (EvIceConnectionState state) s)) =
    if terminal state then false else _connected s.
Proof.
  intros Hpc Hh. unfold fire, on_pc. rewrite Hpc. cbn zeta. rewrite Hh.
  unfold isolate, pc_oniceconnectionstatechange, bind, get, console, emit,
    call, modify, ret, state_of.
  cbn [pc set_pc option_map iceConnectionState with_iceConnectionState
       callbacks fst snd].
  rewrite terminal_or_unknown.
  destruct (onConnectionStateChange (callbacks s));
    destruct (terminal state); reflexivity.
Qed.

Lemma fire_ice_pc (state : string) (p : RTCPeerConnection) (s : Service) :
  pc s = Some p ->
  pc (state_of (fire (EvIceConnectionState state) s)) =
    Some (with_iceConnectionState state p).
Proof.
  intros Hpc. unfold fire, on_pc. rewrite Hpc. cbn zeta.
  destruct (pc_handlers p); [| reflexivity].
  unfold isolate, pc_oniceconnectionstatechange, bind, get, console, emit,
    call, modify, ret, state_of.
  cbn [pc set_pc option_map iceConnectionState with_iceConnectionState
       callbacks fst snd].
  destruct (onConnectionStateChange (callbacks s));
    destruct (terminal (or_unknown (Some state))); reflexivity.
Qed.

Lemma fire_connection_pc (state : string) (p : RTCPeerConnection)
  (s : Service) :
  pc s = Some p ->
  pc (state_of (fire (EvConnectionState state) s)) =
    Some (with_connectionState state p).
Proof.
  intros Hpc. unfold fire, on_pc. rewrite Hpc. cbn zeta.
  destruct (pc_handlers p); [| reflexivity].
  unfold isolate, pc_onconnectionstatechange, bind, get, console, emit,
    modify, ret, state_of.
  cbn [pc set_pc option_map connectionState with_connectionState fst snd].
  destruct (or_unknown (Some state) =? "connected"); [reflexivity |].
  destruct (terminal (or_unknown (Some state))); reflexivity.
Qed.

Lemma stays_down_connection_state (state : string) :
  (state =? "connected") = false ->
  respects stays_down (fire (EvConnectionState state)).
Proof.
  intros H s Hdown.
  destruct (pc s) as [p |] eqn:Hpc.
  - destruct (pc_handlers p) eqn:Hh.
    + rewrite (fire_connection_state state p s Hpc Hh), H.
      destruct (terminal state); [reflexivity | exact Hdown].
    + unfold fire, on_pc. rewrite Hpc. cbn zeta. rewrite Hh. exact Hdown.
  - unfold fire, on_pc. rewrite Hpc. exact Hdown.
Qed.

Lemma stays_down_pc_update (f : RTCPeerConnection -> RTCPeerConnection)
  (s : Service) (p : RTCPeerConnection) :
  pc s = Some p -> stays_down s (set_pc (Some (f p)) s) [].
Proof. intros _ H. exact H. Qed.

Lemma stays_down_dc_update (f : RTCDataChannel -> RTCDataChannel)
  (s : Service) (c : RTCDataChannel) :
  dc s = Some c -> stays_down s (set_dc (Some (f c)) s) [].
Proof. intros _ H. exact H. Qed.

Lemma stays_down_fire (e : Event) :
  transport_connected e = false -> respects stays_down (fire e).
Proof.
  destruct e; cbn [transport_connected fire]; intros H.
  - apply (respects_on_pc _ stays_down_refl stays_down_trans);
      [apply stays_down_pc_update |].
    unfold pc_ontrack.
    respects_walk stays_down_refl stays_down_trans; stays_down_atoms.
  - apply (respects_on_pc _ stays_down_refl stays_down_trans);
      [apply stays_down_pc_update |].
    unfold pc_ondatachannel, setupDataChannelHandlers.
    respects_walk stays_down_refl stays_down_trans; stays_down_atoms.
  - apply (respects_on_pc _ stays_down_refl stays_down_trans);
      [apply stays_down_pc_update |].
    unfold pc_oniceconnectionstatechange.
    respects_walk stays_down_refl stays_down_trans; stays_down_atoms.
  - apply stays_down_connection_state. exact H.
  - apply (respects_on_pc _ stays_down_refl stays_down_trans);
      [apply stays_down_pc_update |].
    unfold pc_onicecandidate.
    respects_walk stays_down_refl stays_down_trans; stays_down_atoms.
  - apply (respects_on_dc _ stays_down_refl stays_down_trans);
      [apply stays_down_dc_update |].
    unfold dc_onopen, sendClientReady.
    respects_walk stays_down_refl stays_down_trans; stays_down_atoms.
  - apply (respects_on_dc _ stays_down_refl stays_down_trans);
      [apply stays_down_dc_update |].
    unfold dc_onclose.
    respects_walk stays_down_refl stays_down_trans; stays_down_atoms.
  - apply (respects_on_dc _ stays_down_refl stays_down_trans);
      [apply stays_down_dc_update |].
    unfold dc_onmessage.
    apply (respects_try_catch _ stays_down_trans).
    + apply (respects_bind _ stays_down_trans).
      * destruct parsed; respects_walk stays_down_refl stays_down_trans.
      * intros message. apply stays_down_handleRTVIMessage.
    + intros _.
      respects_walk stays_down_refl stays_down_trans; stays_down_atoms.
Qed.

Lemma stays_down_run (actions : list Action) (s : Service) :
  existsb is_connect actions = false ->
  existsb transport_connected (flat_map events_of actions) = false ->
  _connected s = false -> _connected (fst (run actions s)) = false.
Proof.
  revert s. induction actions as [| a rest IH]; intros s Hc He Hs.
  - exact Hs.
  - cbn [existsb flat_map] in Hc, He.
    rewrite existsb_app in He.
    apply orb_false_iff in Hc. destruct Hc as [Hc Hc'].
    apply orb_false_iff in He. destruct He as [He He'].
    rewrite run_cons. cbn [fst]. apply IH; try assumption.
    destruct a; cbn [is_connect events_of existsb act] in *.
    + discriminate Hc.
    + rewrite (proj2 (disconnect_state s)). reflexivity.
    + revert Hs. generalize s. change (respects stays_down (setMicMuted muted)).
      unfold setMicMuted.
      respects_walk stays_down_refl stays_down_trans; stays_down_atoms.
    + apply orb_false_iff in He. destruct He as [He _].
      apply (stays_down_fire e He s Hs).
Qed.

(** The service of the scenario: [connect] has resolved on a fresh
    service. *)
Lemma scenario_connected :
  let r := connect scenario_config all_callbacks scenario_env
             new_RTVIVoiceService in
  completion r = Normal tt /\
  _connected (state_of r) = true /\
  option_map pc_handlers (pc (state_of r)) = Some true.
Proof.
  cbn. repeat split.
Qed.

(** C6, as stated, fails: after the ICE connection state has reported
    [disconnected], an overall connection state event reporting [connected]
    raises the flag again, with no call of [connect] in between. *)
Lemma C6_counterexample :
  ~ (forall (before later : list Action) (e : Event),
       transport_terminal e = true ->
       existsb is_connect later = false ->
       connected
         (fst (run (before ++ Fire e :: later) new_RTVIVoiceService)) =
         false).
Proof.
  intros H.
  specialize (H [Connect scenario_config all_callbacks scenario_env]
                [Fire (EvConnectionState "connected")]
                (EvIceConnectionState "disconnected")
                eq_refl eq_refl).
  cbn in H. discriminate H.
Qed.

(** C6, amended. Whenever the ICE connection state or the overall connection
    state reports [disconnected], [failed] or [closed], the connected flag
    becomes false; it then stays false through every later event and every
    call other than [connect], except an overall connection state event
    reporting [connected], which raises the flag again. *)
Theorem C6_terminal_state_lowers_flag
  (state : string) (p : RTCPeerConnection) (s : Service) :
  pc s = Some p ->
  pc_handlers p = true ->
  terminal state = true ->
  connected (state_of (fire (EvIceConnectionState state) s)) = false /\
  connected (state_of (fire (EvConnectionState state) s)) = false /\
  (forall actions s0,
     connected s0 = false ->
     existsb is_connect actions = false ->
     existsb transport_connected (flat_map events_of actions) = false ->
     connected (fst (run actions s0)) = false) /\
  connected (state_of (fire (EvConnectionState "connected")
                         (state_of (fire (EvIceConnectionState state) s)))) =
    true /\
  connected (state_of (fire (EvConnectionState "connected")
                         (state_of (fire (EvConnectionState state) s)))) =
    true.
Proof.
  intros Hpc Hh Ht. unfold connected.
  rewrite (fire_ice_state state p s Hpc Hh), Ht.
  rewrite (fire_connection_state state p s Hpc Hh), Ht.
  rewrite (terminal_not_connected state Ht).
  rewrite (fire_connection_state "connected"
             (with_iceConnectionState state p) _
             (fire_ice_pc state p s Hpc) Hh).
  rewrite (fire_connection_state "connected"
             (with_connectionState state p) _
             (fire_connection_pc state p s Hpc) Hh).
  split; [reflexivity |]. split; [reflexivity |].
  split; [| split; reflexivity].
  intros actions s0 H0 Hc He. apply stays_down_run; assumption.
Qed.

Lemma C6_terminal_state_lowers_flag_witness :
  let s := state_of (connect scenario_config all_callbacks scenario_env
                       new_RTVIVoiceService) in
  connected s = true /\
  connected (state_of (fire (EvIceConnectionState "failed") s)) = false /\
  connected (state_of (fire (EvConnectionState "failed") s)) = false /\
  connected
    (fst (run [ Fire (EvIceConnectionState "connected");
                Fire (EvChannelOpen "123e4567-e89b-12d3-a456-426614174000");
                SetMicMuted false ]
            (state_of (fire (EvConnectionState "failed") s)))) = false /\
  connected (state_of (fire (EvConnectionState "connected")
                         (state_of (fire (EvConnectionState "failed") s)))) =
    true.
Proof.
  intros s.
  destruct (C6_terminal_state_lowers_flag "failed"
              {| iceServers := default_iceServers; pc_handlers := true;
                 senders := ["mic"];
                 localDescription :=
                   Some {| sd_type := "offer"; sdp := "v=0" |};
                 remoteDescription :=
                   Some {| sd_type := "answer"; sdp := "v=0" |};
                 iceConnectionState := "new";
                 connectionState := "new" |}
              s eq_refl eq_refl eq_refl)
    as (Hice & Hconn & Hlater & _ & Hagain).
  split; [reflexivity |].
  split; [exact Hice |].
  split; [exact Hconn |].
  split; [apply Hlater; [exact Hconn | reflexivity | reflexivity] |].
  exact Hagain.
Defined.

(** ** What events and the steps of [connect] keep *)

Lemma keeps_refl (s : Service) : keeps s s [].
Proof. repeat split. auto. Qed.

Lemma keeps_trans (s1 s2 s3 : Service) (t1 t2 : list Effect) :
  keeps s1 s2 t1 -> keeps s2 s3 t2 -> keeps s1 s3 (t1 ++ t2).
Proof.
  unfold keeps. intros (U1 & C1 & P1) (U2 & C2 & P2).
  repeat split; [congruence | congruence | auto].
Qed.

Ltac keeps_atoms :=
  intros; unfold keeps; cbn;
  repeat match goal with
         | |- context [match ?x with _ => _ end] => destruct x eqn:?
         end;
  cbn; repeat split; congruence.

Lemma keeps_handleRTVIMessage (message : RTVIMessage) :
  respects keeps (handleRTVIMessage message).
Proof.
  unfold handleRTVIMessage.
  respects_walk keeps_refl keeps_trans; keeps_atoms.
Qed.

Lemma keeps_pc_update (f : RTCPeerConnection -> RTCPeerConnection)
  (s : Service) (p : RTCPeerConnection) :
  pc s = Some p -> keeps s (set_pc (Some (f p)) s) [].
Proof. intros _. repeat split. discriminate. Qed.

Lemma keeps_dc_update (f : RTCDataChannel -> RTCDataChannel)
  (s : Service) (c : RTCDataChannel) :
  dc s = Some c -> keeps s (set_dc (Some (f c)) s) [].
Proof. intros _. repeat split. auto. Qed.

Lemma keeps_fire (e : Event) : respects keeps (fire e).
Proof.
  destruct e; cbn [fire].
  - apply (respects_on_pc _ keeps_refl keeps_trans);
      [apply keeps_pc_update |].
    unfold pc_ontrack.
    respects_walk keeps_refl keeps_trans; keeps_atoms.
  - apply (respects_on_pc _ keeps_refl keeps_trans);
      [apply keeps_pc_update |].
    unfold pc_ondatachannel, setupDataChannelHandlers.
    respects_walk keeps_refl keeps_trans; keeps_atoms.
  - apply (respects_on_pc _ keeps_refl keeps_trans);
      [apply keeps_pc_update |].
    unfold pc_oniceconnectionstatechange.
    respects_walk keeps_refl keeps_trans; keeps_atoms.
  - apply (respects_on_pc _ keeps_refl keeps_trans);
      [apply keeps_pc_update |].
    unfold pc_onconnectionstatechange.
    respects_walk keeps_refl keeps_trans; keeps_atoms.
  - apply (respects_on_pc _ keeps_refl keeps_trans);
      [apply keeps_pc_update |].
    unfold pc_onicecandidate.
    respects_walk keeps_refl keeps_trans; keeps_atoms.
  - apply (respects_on_dc _ keeps_refl keeps_trans);
      [apply keeps_dc_update |].
    unfold dc_onopen, sendClientReady.
    respects_walk keeps_refl keeps_trans; keeps_atoms.
  - apply (respects_on_dc _ keeps_refl keeps_trans);
      [apply keeps_dc_update |].
    unfold dc_onclose.
    respects_walk keeps_refl keeps_trans; keeps_atoms.
  - apply (respects_on_dc _ keeps_refl keeps_trans);
      [apply keeps_dc_update |].
    unfold dc_onmessage.
    apply (respects_try_catch _ keeps_trans).
    + apply (respects_bind _ keeps_trans).
      * destruct parsed; respects_walk keeps_refl keeps_trans.
      * intros message. apply keeps_handleRTVIMessage.
    + intros _. respects_walk keeps_refl keeps_trans; keeps_atoms.
Qed.

Lemma keeps_await {A} (a : Awaited A) : respects keeps (await a).
Proof.
  apply (respects_await _ keeps_refl keeps_trans).
  intros e _. apply keeps_fire.
Qed.

Lemma keeps_addTracks (tracks : list MediaStreamTrack) :
  respects keeps (addTracks tracks).
Proof.
  induction tracks as [| t tracks IH]; cbn [addTracks].
  - apply (respects_ret _ keeps_refl).
  - unfold this_pc, update_pc.
    respects_walk keeps_refl keeps_trans; try exact IH; keeps_atoms.
Qed.

Lemma keeps_negotiate (config : RTVIConfig) (env : ConnectEnv) :
  respects keeps (negotiate config env).
Proof.
  unfold negotiate, step1_create_session, step2_create_peer_connection,
    step3_local_stream, step4_create_offer, step5_exchange_offer,
    step6_set_remote_description, setupPeerConnectionHandlers, this_pc,
    update_pc.
  respects_walk keeps_refl keeps_trans;
    try apply keeps_await; try apply keeps_addTracks; keeps_atoms.
Qed.

Lemma fire_all_normal (es : list Event) (s : Service) :
  completion (fire_all es s) = Normal tt.
Proof.
  revert s. induction es as [| e es IH]; intros s; [reflexivity |].
  cbn [fire_all]. rewrite bind_run.
  assert (F : completion (fire e s) = Normal tt).
  { destruct e; cbn [fire]; unfold on_pc, on_dc, isolate, completion;
      repeat match goal with
             | |- context [match ?x with _ => _ end] => destruct x
             end; reflexivity. }
  rewrite F. apply IH.
Qed.

(** ** The outcome of [connect] *)

Lemma yields_bind {A B} (P Q R : Service -> Prop) (m : M A) (k : A -> M B)
  (o1 : JsError + A) (o2 : A -> JsError + B) :
  yields P m o1 Q -> (forall a, yields Q (k a) (o2 a) R) ->
  yields P (bind m k) (and_then o1 o2) R.
Proof.
  intros Hm Hk s Hs. destruct (Hm s Hs) as [Cm Qm].
  rewrite bind_run, Cm.
  destruct o1 as [e | a]; cbn [to_completion and_then].
  - split; [reflexivity | discriminate].
  - unfold completion at 1, state_of at 1. cbn [fst snd].
    apply (Hk a). apply (Qm a). reflexivity.
Qed.

Lemma yields_then {A B} (P Q R : Service -> Prop) (m : M A) (k : A -> M B)
  (a : A) (o : JsError + B) :
  yields P m (inr a) Q -> yields Q (k a) o R -> yields P (bind m k) o R.
Proof.
  intros Hm Hk s Hs. destruct (Hm s Hs) as [Cm Qm].
  rewrite bind_run, Cm. cbn [to_completion].
  unfold completion at 1, state_of at 1. cbn [fst snd].
  apply Hk. apply (Qm a). reflexivity.
Qed.

Lemma yields_ret {A} (P : Service -> Prop) (a : A) :
  yields P (ret a) (inr a) P.
Proof. intros s Hs. split; [reflexivity | intros _ _; exact Hs]. Qed.

Lemma yields_throw {A} (P Q : Service -> Prop) (e : JsError) :
  yields P (@throw A e) (inl e) Q.
Proof. intros s Hs. split; [reflexivity | discriminate]. Qed.

Lemma yields_settle {A} (P : Service -> Prop) (r : JsError + A) :
  yields P (settle r) r P.
Proof.
  intros s Hs. destruct r; (split; [reflexivity |]);
    [discriminate | intros _ _; exact Hs].
Qed.

Lemma yields_emit (P : Service -> Prop) (e : Effect) :
  yields P (emit e) (inr tt) P.
Proof. intros s Hs. split; [reflexivity | intros _ _; exact Hs]. Qed.

Lemma yields_console (P : Service -> Prop) (level : ConsoleLevel)
  (message : string) :
  yields P (console level message) (inr tt) P.
Proof. apply yields_emit. Qed.

Lemma yields_modify (P Q : Service -> Prop) (f : Service -> Service) :
  (forall s, P s -> Q (f s)) -> yields P (modify f) (inr tt) Q.
Proof. intros H s Hs. split; [reflexivity | intros _ _; apply H, Hs]. Qed.

Lemma yields_get {A} (P Q : Service -> Prop) (k : Service -> M A)
  (o : JsError + A) :
  (forall s0, yields P (k s0) o Q) -> yields P (bind get k) o Q.
Proof.
  intros H s Hs. rewrite bind_run. cbn. apply (H s s Hs).
Qed.

Lemma yields_check_ok (P : Service -> Prop) (what : string)
  (response : Response) :
  yields P
    (if negb (ok response) then throw (status_error what response)
     else ret tt)
    (check_ok what response) P.
Proof.
  unfold check_ok. destruct (negb (ok response));
    [apply yields_throw | apply yields_ret].
Qed.

Lemma has_pc_kept (s s' : Service) (t : list Effect) :
  keeps s s' t -> has_pc s -> has_pc s'.
Proof. intros (_ & _ & H). exact H. Qed.

Lemma await_completion {A} (a : Awaited A) (s : Service) :
  completion (await a s) = to_completion (settled a).
Proof.
  unfold await. rewrite bind_run, fire_all_normal.
  unfold completion at 1. destruct (settled a); reflexivity.
Qed.

Lemma yields_await {A} (a : Awaited A) :
  yields has_pc (await a) (settled a) has_pc.
Proof.
  intros s Hs. split; [apply await_completion |]. intros _ _.
  exact (has_pc_kept _ _ _ (keeps_await a s) Hs).
Qed.

Lemma yields_await_any {A} (a : Awaited A) :
  yields (fun _ => True) (await a) (settled a) (fun _ => True).
Proof.
  intros s _. split; [apply await_completion | intros _ _; exact I].
Qed.

Lemma yields_this_pc {A} (k : RTCPeerConnection -> M A) (o : JsError + A)
  (Q : Service -> Prop) :
  (forall p, yields has_pc (k p) o Q) -> yields has_pc (bind this_pc k) o Q.
Proof.
  intros H s Hs. rewrite bind_run. unfold this_pc.
  rewrite bind_run. cbn [get completion state_of effects fst snd].
  unfold has_pc in Hs. destruct (pc s) as [p |] eqn:E; [| congruence].
  cbn. apply (H p s). unfold has_pc. congruence.
Qed.

Lemma yields_update_pc (f : RTCPeerConnection -> RTCPeerConnection) :
  yields has_pc (update_pc f) (inr tt) has_pc.
Proof.
  apply yields_modify. unfold has_pc. intros s Hs.
  destruct (pc s); [discriminate | congruence].
Qed.

Lemma yields_addTracks (tracks : list MediaStreamTrack) :
  yields has_pc (addTracks tracks) (inr tt) has_pc.
Proof.
  induction tracks as [| t tracks IH]; cbn [addTracks].
  - apply yields_ret.
  - apply yields_this_pc. intros _.
    eapply yields_then; [apply yields_update_pc | exact IH].
Qed.

Lemma yields_bind_ret {A} (P Q R : Service -> Prop) (m : M A)
  (k : A -> M A) (o : JsError + A) :
  yields P m o Q -> (forall a, yields Q (k a) (inr a) R) ->
  yields P (bind m k) o R.
Proof.
  intros Hm Hk.
  replace o with (and_then o (fun a => inr a)) by (destruct o; reflexivity).
  apply (yields_bind P Q R); assumption.
Qed.

Lemma yields_bind_unit (P Q R : Service -> Prop) (m : M unit)
  (k : unit -> M unit) (o : JsError + unit) :
  yields P m o Q -> (forall a, yields Q (k a) (inr tt) R) ->
  yields P (bind m k) o R.
Proof.
  intros Hm Hk.
  replace o with (and_then o (fun _ : unit => @inr JsError unit tt))
    by (destruct o as [e | []]; reflexivity).
  apply (yields_bind P Q R); assumption.
Qed.

Lemma step1_yields (env : ConnectEnv) :
  yields (fun _ => True) (step1_create_session env) (step1_outcome env)
    (fun _ => True).
Proof.
  unfold step1_create_session, step1_outcome.
  eapply yields_then; [apply yields_console |].
  apply yields_get. intros s0.
  eapply yields_then; [apply yields_emit |].
  apply (yields_bind _ (fun _ => True));
    [apply yields_await_any | intros response].
  apply (yields_bind _ (fun _ => True));
    [apply yields_check_ok | intros _].
  apply (yields_bind_ret _ (fun _ => True));
    [apply yields_await_any | intros body].
  eapply (yields_then _ (fun _ => True)); [apply yields_modify; auto |].
  eapply yields_then; [apply yields_console | apply yields_ret].
Qed.

Lemma step2_yields (env : ConnectEnv) (body : StartBody) :
  yields (fun _ => True) (step2_create_peer_connection env body)
    (peerConstruct env) has_pc.
Proof.
  unfold step2_create_peer_connection.
  apply (yields_bind_unit _ (fun _ => True));
    [apply yields_settle | intros _].
  eapply (yields_then _ has_pc).
  - apply yields_modify. intros s _. discriminate.
  - apply yields_modify. unfold has_pc. intros s Hs.
    destruct (pc s); [discriminate | congruence].
Qed.

Lemma step3_yields (config : RTVIConfig) (env : ConnectEnv) :
  yields has_pc (step3_local_stream config env) (step3_outcome config env)
    has_pc.
Proof.
  unfold step3_local_stream, step3_outcome.
  destruct (mic_wanted config); [| apply yields_ret].
  eapply yields_then; [apply yields_console |].
  eapply yields_then; [apply yields_emit |].
  apply (yields_bind _ has_pc); [apply yields_await | intros stream].
  eapply (yields_then _ has_pc); [apply yields_modify; auto |].
  eapply yields_then; [apply yields_addTracks | apply yields_console].
Qed.

Lemma step4_yields (env : ConnectEnv) :
  yields has_pc (step4_create_offer env) (step4_outcome env) has_pc.
Proof.
  unfold step4_create_offer, step4_outcome.
  eapply yields_then; [apply yields_console |].
  apply yields_this_pc. intros _.
  apply (yields_bind _ has_pc); [apply yields_await | intros offer].
  apply yields_this_pc. intros _.
  apply (yields_bind _ has_pc); [apply yields_await | intros _].
  eapply yields_then; [apply yields_update_pc | apply yields_ret].
Qed.

Lemma step5_yields (env : ConnectEnv) (session : option string)
  (offer : RTCSessionDescription) :
  yields has_pc (step5_exchange_offer env session offer) (step5_outcome env)
    has_pc.
Proof.
  unfold step5_exchange_offer, step5_outcome.
  apply yields_get. intros s0.
  eapply yields_then; [apply yields_emit |].
  apply (yields_bind _ has_pc); [apply yields_await | intros response].
  apply (yields_bind _ has_pc); [apply yields_check_ok | intros _].
  apply (yields_bind_ret _ has_pc); [apply yields_await | intros answer].
  eapply yields_then; [apply yields_console | apply yields_ret].
Qed.

Lemma step6_yields (env : ConnectEnv) (answer : Answer) :
  yields has_pc (step6_set_remote_description env answer)
    (settled (setRemoteDescription env)) has_pc.
Proof.
  unfold step6_set_remote_description.
  apply yields_this_pc. intros _.
  apply (yields_bind_unit _ has_pc); [apply yields_await | intros _].
  apply yields_update_pc.
Qed.

Lemma negotiate_yields (config : RTVIConfig) (env : ConnectEnv) :
  yields (fun _ => True) (negotiate config env)
    (negotiate_outcome config env) has_pc.
Proof.
  unfold negotiate, negotiate_outcome.
  apply (yields_bind _ (fun _ => True)); [apply step1_yields | intros body].
  apply (yields_bind _ has_pc); [apply step2_yields | intros _].
  apply (yields_bind _ has_pc); [apply step3_yields | intros _].
  apply (yields_bind _ has_pc); [apply step4_yields | intros offer].
  apply (yields_bind _ has_pc); [apply step5_yields | intros answer].
  apply step6_yields.
Qed.

Lemma negotiate_completion (config : RTVIConfig) (env : ConnectEnv)
  (s : Service) :
  completion (negotiate config env s) =
    to_completion (negotiate_outcome config env).
Proof.
  apply (negotiate_yields config env s I).
Qed.

Lemma bind_modify {A} (f : Service -> Service) (k : unit -> M A)
  (s : Service) :
  bind (modify f) k s = k tt (f s).
Proof.
  unfold bind, modify. destruct (k tt (f s)) as [[c s2] t2]. reflexivity.
Qed.

Lemma call_run (hook : RTVICallbacks -> bool) (c : CallbackCall)
  (s : Service) :
  call hook c s =
    (Normal tt, s, if hook (callbacks s) then [Call c] else []).
Proof.
  unfold call. destruct (hook (callbacks s)); reflexivity.
Qed.

Lemma report_connected_run (s : Service) :
  report_connected s =
    (Normal tt, set_connected true s,
     (if onConnectionStateChange (callbacks s)
      then [Call (OnConnectionStateChange "connected")] else []) ++
     [Console LevelLog "[RTVI] WebRTC connection established"]).
Proof.
  unfold report_connected. rewrite bind_modify.
  unfold bind, console, emit. rewrite call_run. reflexivity.
Qed.

Lemma connect_failed_run (e : JsError) (s : Service) :
  connect_failed e s =
    (Throw e, pre_connect s,
     Console LevelError "[RTVI] Connection error:" ::
     (if onError (callbacks s) then [Call (OnError e)] else []) ++
     effects (disconnect s)).
Proof.
  destruct (disconnect_state s) as [Dc Ds].
  unfold connect_failed, bind, console, emit. rewrite call_run.
  unfold completion, state_of, effects in *.
  destruct (disconnect s) as [[c s'] t]. cbn [fst snd] in *. subst.
  cbn [throw]. rewrite app_nil_r. reflexivity.
Qed.

(** [connect] in one equation: the try block runs [negotiate]; on success the
    flag is raised and [connected] notified, on failure the [catch] block
    logs, calls [onError], runs [disconnect] and throws again. *)
Lemma connect_run (config : RTVIConfig) (cbs : RTVICallbacks)
  (env : ConnectEnv) (s : Service) :
  let n := negotiate config env (connect_entry config cbs s) in
  connect config cbs env s =
    match negotiate_outcome config env with
    | inr _ =>
        (Normal tt, set_connected true (state_of n),
         effects n ++
         (if onConnectionStateChange cbs
          then [Call (OnConnectionStateChange "connected")] else []) ++
         [Console LevelLog "[RTVI] WebRTC connection established"])
    | inl e =>
        (Throw e, pre_connect (connect_entry config cbs s),
         effects n ++
         Console LevelError "[RTVI] Connection error:" ::
         (if onError cbs then [Call (OnError e)] else []) ++
         effects (disconnect (state_of n)))
    end.
Proof.
  intros n.
  destruct (keeps_negotiate config env (connect_entry config cbs s))
    as (Hurl & Hcbs & _). fold n in Hurl, Hcbs.
  pose proof (negotiate_completion config env (connect_entry config cbs s))
    as Hc. fold n in Hc.
  unfold connect. rewrite !bind_modify. fold (connect_entry config cbs s).
  rewrite try_catch_run. unfold connect_steps. rewrite bind_run.
  fold n. rewrite Hc.
  destruct (negotiate_outcome config env) as [e | []];
    cbn [to_completion completion fst snd].
  - rewrite connect_failed_run.
    cbn [completion state_of effects fst snd]. rewrite Hcbs.
    unfold pre_connect at 1. rewrite Hurl, Hcbs. reflexivity.
  - rewrite report_connected_run.
    cbn [completion state_of effects fst snd]. rewrite Hcbs. reflexivity.
Qed.

Lemma disconnect_effects (s : Service) :
  effects (disconnect s) =
    Console LevelLog "[RTVI] Disconnecting..." ::
    released s ++
    (if onConnectionStateChange (callbacks s)
     then [Call (OnConnectionStateChange "disconnected")] else []) ++
    [Console LevelLog "[RTVI] Disconnected"].
Proof.
  destruct s as [[?|] [?|] [?|] [?|] ? ? [] ? ?];
    destruct onConnectionStateChange0; unfold released;
    cbn; rewrite <- ?app_assoc; reflexivity.
Qed.

Lemma disconnect_releases (s : Service) (t1 t2 : list Effect) :
  (forall stream track,
     localStream s = Some stream -> In track (getTracks stream) ->
     In (TrackStop (track_id track)) (t1 ++ t2 ++ effects (disconnect s))) /\
  (remoteAudio s <> None ->
   In AudioDetach (t1 ++ t2 ++ effects (disconnect s))) /\
  (forall channel,
     dc s = Some channel ->
     In (ChannelClose (label channel)) (t1 ++ t2 ++ effects (disconnect s))) /\
  (pc s <> None -> In PeerClose (t1 ++ t2 ++ effects (disconnect s))).
Proof.
  rewrite disconnect_effects. unfold released.
  repeat split.
  - intros stream track -> Hin.
    apply in_or_app. right. apply in_or_app. right. right.
    apply in_or_app. left. apply in_or_app. left.
    apply (in_map (fun t => TrackStop (track_id t))). exact Hin.
  - intros H. destruct (remoteAudio s); [| congruence].
    apply in_or_app. right. apply in_or_app. right. right.
    apply in_or_app. left. apply in_or_app. right.
    left. reflexivity.
  - intros channel ->.
    apply in_or_app. right. apply in_or_app. right. right.
    apply in_or_app. left. apply in_or_app. right.
    apply in_or_app. right. left. reflexivity.
  - intros H. destruct (pc s); [| congruence].
    apply in_or_app. right. apply in_or_app. right. right.
    apply in_or_app. left. apply in_or_app. right.
    apply in_or_app. right. apply in_or_app. right. left. reflexivity.
Qed.

(** ** Failure of [connect] *)

(** C4. When a step of [connect] fails with [e] (in particular when the
    session-creation endpoint answers with a non-success status, and then
    [e] is the signaling error carrying that status), [connect] rejects with
    [e] itself, invokes the error callback (when one is supplied) with [e],
    and runs a full [disconnect] on the service as the failure left it:
    every track of a local stream it held is stopped, the sink, the channel
    and the connection it held are released, every field is back at its
    pre-connect value, and [isMicMuted] reads [true]. *)
Theorem C4_failed_connect_cleans_up
  (config : RTVIConfig) (cbs : RTVICallbacks) (env : ConnectEnv)
  (s : Service) (e : JsError) :
  negotiate_outcome config env = inl e ->
  let r := connect config cbs env s in
  let failed := state_of (negotiate config env (connect_entry config cbs s)) in
  completion r = Throw e /\
  (onError cbs = true -> In (Call (OnError e)) (effects r)) /\
  (exists before,
     effects r =
       before ++
       (Console LevelError "[RTVI] Connection error:" ::
        (if onError cbs then [Call (OnError e)] else [])) ++
       effects (disconnect failed)) /\
  state_of r =
    {| pc := None; dc := None; localStream := None; remoteAudio := None;
       sessionId := None; serverUrl := cfg_serverUrl config;
       callbacks := cbs; _connected := false; accumulatedBotText := "" |} /\
  isMicMuted (state_of r) = true /\
  (forall stream track,
     localStream failed = Some stream -> In track (getTracks stream) ->
     In (TrackStop (track_id track)) (effects r)) /\
  (remoteAudio failed <> None -> In AudioDetach (effects r)) /\
  (forall channel,
     dc failed = Some channel -> In (ChannelClose (label channel)) (effects r)) /\
  (pc failed <> None -> In PeerClose (effects r)) /\
  (forall response,
     settled (startResponse env) = inr response -> ok response = false ->
     e = Error ("Failed to create session: " ++ show_nat (status response))
     /\ SignalingError e) /\
  (forall body offer response,
     step1_outcome env = inr body -> peerConstruct env = inr tt ->
     step3_outcome config env = inr tt -> step4_outcome env = inr offer ->
     settled (offerResponse env) = inr response -> ok response = false ->
     e = Error ("Failed to send offer: " ++ show_nat (status response))
     /\ SignalingError e).
Proof.
  intros H r failed.
  assert (E : r =
    (Throw e, pre_connect (connect_entry config cbs s),
     effects (negotiate config env (connect_entry config cbs s)) ++
     (Console LevelError "[RTVI] Connection error:" ::
      (if onError cbs then [Call (OnError e)] else [])) ++
     effects (disconnect failed))).
  { unfold r. rewrite connect_run, H. reflexivity. }
  rewrite E. unfold completion, state_of, effects. cbn [fst snd].
  destruct (disconnect_releases failed
              (effects (negotiate config env (connect_entry config cbs s)))
              (Console LevelError "[RTVI] Connection error:" ::
               (if onError cbs then [Call (OnError e)] else [])))
    as (Rtracks & Raudio & Rchannel & Rpeer).
  split; [reflexivity |].
  split.
  { intros ->. apply in_or_app. right. right. left. reflexivity. }
  split; [eexists; reflexivity |].
  split; [reflexivity |].
  split; [reflexivity |].
  split; [exact Rtracks |].
  split; [exact Raudio |].
  split; [exact Rchannel |].
  split; [exact Rpeer |].
  split.
  - intros response Hr Hok.
    unfold negotiate_outcome, step1_outcome, check_ok in H.
    rewrite Hr in H. cbn [and_then] in H. rewrite Hok in H.
    cbn [negb and_then] in H. injection H as <-.
    split; [reflexivity |].
    exists "Failed to create session", response. split; [exact Hok | reflexivity].
  - intros body offer response H1 H2 H3 H4 Hr Hok.
    unfold negotiate_outcome in H. rewrite H1, H2, H3, H4 in H.
    unfold step5_outcome, check_ok in H. rewrite Hr in H.
    cbn [and_then] in H. rewrite Hok in H. cbn [negb and_then] in H.
    injection H as <-.
    split; [reflexivity |].
    exists "Failed to send offer", response. split; [exact Hok | reflexivity].
Qed.

Lemma C4_failed_connect_cleans_up_witness :
  let r := connect scenario_config all_callbacks scenario_env_500
             new_RTVIVoiceService in
  let e := Error "Failed to create session: 500" in
  let r' := connect scenario_config all_callbacks scenario_env_503
              new_RTVIVoiceService in
  let e' := Error "Failed to send offer: 503" in
  (completion r = Throw e /\
   In (Call (OnError e)) (effects r) /\
   isMicMuted (state_of r) = true /\
   SignalingError e) /\
  (completion r' = Throw e' /\
   In (Call (OnError e')) (effects r') /\
   In (TrackStop "mic") (effects r') /\
   In PeerClose (effects r') /\
   localStream (state_of r') = None /\
   SignalingError e').
Proof.
  intros r e r' e'.
  destruct (C4_failed_connect_cleans_up scenario_config all_callbacks
              scenario_env_500 new_RTVIVoiceService e eq_refl)
    as (Hthrow & Herr & _ & _ & Hmuted & _ & _ & _ & _ & Hsig & _).
  destruct (C4_failed_connect_cleans_up scenario_config all_callbacks
              scenario_env_503 new_RTVIVoiceService e' eq_refl)
    as (Hthrow' & Herr' & _ & Hstate' & _ & Htracks' & _ & _ & Hpeer' & _
        & Hsig').
  split.
  - split; [exact Hthrow |].
    split; [apply Herr; reflexivity |].
    split; [exact Hmuted |].
    apply (Hsig {| status := 500 |}); reflexivity.
  - split; [exact Hthrow' |].
    split; [apply Herr'; reflexivity |].
    split.
    { apply (Htracks'
               {| stream_id := "local";
                  getTracks := [ {| track_id := "mic"; kind := "audio";
                                    enabled := true |} ] |}
               {| track_id := "mic"; kind := "audio"; enabled := true |});
        [reflexivity | left; reflexivity]. }
    split; [apply Hpeer'; discriminate |].
    split; [unfold r'; rewrite Hstate'; reflexivity |].
    apply (Hsig' {| body_sessionId := Some "s1"; iceConfig := None |}
             {| sd_type := "offer"; sdp := "v=0" |} {| status := 503 |});
      reflexivity.
Defined.

(** ** When [connect] reports connected *)

Lemma not_reported (t : list Effect) :
  Forall (effect_ok (fun _ => True) (fun state => state <> "connected")) t ->
  ~ In (Call (OnConnectionStateChange "connected")) t.
Proof.
  intros H Hin. rewrite Forall_forall in H.
  apply (H _ Hin). reflexivity.
Qed.

Lemma events_without_ice_connected (events : list Event) :
  existsb ice_connected events = false ->
  Forall (event_ok (fun _ => True) (fun state => state <> "connected"))
    events.
Proof.
  intros H. apply Forall_forall. intros e He.
  destruct e; cbn; try exact I.
  intros Hc.
  assert (X : existsb ice_connected events = true).
  { apply existsb_exists. eexists. split; [exact He |].
    cbn. rewrite <- or_unknown_connected, Hc. reflexivity. }
  congruence.
Qed.

(** C1, as stated, fails: in the scenario no event at all is dispatched, so
    neither the transport has reported connected nor the control channel
    open, and yet [connect] raises the flag and notifies [connected]. *)
Lemma C1_counterexample :
  ~ (forall (config : RTVIConfig) (cbs : RTVICallbacks) (env : ConnectEnv),
       existsb (fun e => ice_connected e || transport_connected e || is_open e)
         (events_during env) = false ->
       let r := connect config cbs env new_RTVIVoiceService in
       connected (state_of r) = false /\
       ~ In (Call (OnConnectionStateChange "connected")) (effects r)).
Proof.
  intros H.
  destruct (H scenario_config all_callbacks scenario_env eq_refl)
    as [Hflag _].
  cbn in Hflag. discriminate Hflag.
Qed.

(** C1, amended. [connect] reports connected exactly when every step of its
    signaling sequence, up to setting the remote description, has succeeded,
    whether or not the transport has reported connected or the control
    channel has reported open: the promise resolves and the flag is raised
    if and only if all steps succeeded, and, in a call during which the ICE
    connection state does not report connected, [connected] is notified if
    and only if all steps succeeded and the callback is supplied. *)
Theorem C1_connected_reported_after_signaling
  (config : RTVIConfig) (cbs : RTVICallbacks) (env : ConnectEnv)
  (s : Service) :
  let r := connect config cbs env s in
  (completion r = Normal tt <-> negotiate_outcome config env = inr tt) /\
  (connected (state_of r) = true <-> negotiate_outcome config env = inr tt) /\
  (existsb ice_connected (events_during env) = false ->
   (In (Call (OnConnectionStateChange "connected")) (effects r) <->
    negotiate_outcome config env = inr tt /\
    onConnectionStateChange cbs = true)).
Proof.
  intros r. unfold r. rewrite connect_run.
  set (n := negotiate config env (connect_entry config cbs s)).
  destruct (negotiate_outcome config env) as [e | []];
    unfold completion, state_of, effects, connected; cbn [fst snd].
  - split; [split; discriminate |].
    split; [split; discriminate |].
    intros Hev. split; [| intros [X _]; discriminate X].
    intros Hin. exfalso.
    apply in_app_or in Hin. destruct Hin as [Hin | Hin].
    + revert Hin. apply not_reported. apply emits_negotiate.
      apply events_without_ice_connected. exact Hev.
    + destruct Hin as [Hin | Hin]; [discriminate Hin |].
      apply in_app_or in Hin. destruct Hin as [Hin | Hin].
      * destruct (onError cbs); [| exact Hin].
        destruct Hin as [Hin | []]. discriminate Hin.
      * revert Hin. apply not_reported.
        apply (emits_disconnect (fun _ => True)
                 (fun state => state <> "connected")).
        discriminate.
  - split; [split; reflexivity |].
    split; [split; reflexivity |].
    intros Hev. split.
    + intros Hin. split; [reflexivity |].
      apply in_app_or in Hin. destruct Hin as [Hin | Hin].
      * exfalso. revert Hin. apply not_reported. apply emits_negotiate.
        apply events_without_ice_connected. exact Hev.
      * destruct (onConnectionStateChange cbs); [reflexivity |].
        destruct Hin as [Hin | []]. discriminate Hin.
    + intros [_ ->]. apply in_or_app. right. left. reflexivity.
Qed.

Lemma C1_connected_reported_after_signaling_witness :
  let r := connect scenario_config all_callbacks scenario_env
             new_RTVIVoiceService in
  events_during scenario_env = [] /\
  connected (state_of r) = true /\
  In (Call (OnConnectionStateChange "connected")) (effects r).
Proof.
  intros r.
  destruct (C1_connected_reported_after_signaling scenario_config
              all_callbacks scenario_env new_RTVIVoiceService)
    as (_ & Hflag & Hnote).
  split; [reflexivity |].
  split; [apply Hflag; reflexivity |].
  apply (Hnote eq_refl). split; reflexivity.
Defined.

(** * Further properties of the protocol handler *)

(** X1. A [user-transcription] message carrying text reaches the user-transcript
    callback with that text and its [final] flag, [false] when the flag is
    absent; the service, accumulated bot text included, is unchanged. *)
Theorem user_transcription_final_defaults_false
  (message : RTVIMessage) (d : MessageData) (text : string) (s : Service) :
  msg_type message = "user-transcription" ->
  msg_data message = Some d ->
  data_text d = Some text ->
  let r := handleRTVIMessage message s in
  let final := match data_final d with Some b => b | None => false end in
  completion r = Normal tt /\
  state_of r = s /\
  calls (effects r) =
    (if onUserTranscript (callbacks s)
     then [OnUserTranscript text final] else []) /\
  (data_final d = None ->
   onUserTranscript (callbacks s) = true ->
   calls (effects r) = [OnUserTranscript text false]).
Proof.
  intros Ht Hd Htext r final.
  assert (E : r =
    (Normal tt, s,
     Console LevelLog "[RTVI] Message:" ::
       (if onUserTranscript (callbacks s)
        then [Call (OnUserTranscript text final)] else []))).
  { unfold r, handleRTVIMessage, message_text, message_final, final.
    rewrite Ht, Hd, Htext. cbn. rewrite call_run.
    destruct (onUserTranscript (callbacks s)); reflexivity. }
  rewrite E. unfold completion, state_of, effects. cbn [fst snd calls].
  split; [reflexivity |]. split; [reflexivity |].
  split; [destruct (onUserTranscript (callbacks s)); reflexivity |].
  intros Hf Hcb. unfold final. rewrite Hf, Hcb. reflexivity.
Qed.

Lemma user_transcription_final_defaults_false_witness :
  calls (effects
    (handleRTVIMessage (fragment "user-transcription" "hello")
       (set_callbacks all_callbacks new_RTVIVoiceService))) =
    [OnUserTranscript "hello" false].
Proof.
  apply (user_transcription_final_defaults_false
           (fragment "user-transcription" "hello")
           {| data_text := Some "hello"; data_final := None;
              data_error := None |}
           "hello" (set_callbacks all_callbacks new_RTVIVoiceService));
    reflexivity.
Defined.

(** X2. An [error] message with a non-empty error text reaches the error
    callback as an [Error] carrying that text, and nothing else happens: the
    service keeps its connection, its resources and its connected flag. *)
Theorem server_error_is_reported_not_fatal
  (message : RTVIMessage) (text : string) (s : Service) :
  msg_type message = "error" ->
  message_error message = Some text ->
  text <> "" ->
  handleRTVIMessage message s =
    (Normal tt, s,
     Console LevelLog "[RTVI] Message:" ::
       (if onError (callbacks s) then [Call (OnError (Error text))]
        else [])).
Proof.
  intros Ht He Hne. unfold handleRTVIMessage. rewrite Ht, He. cbn.
  apply String.eqb_neq in Hne. rewrite Hne. cbn. rewrite call_run.
  destruct (onError (callbacks s)); reflexivity.
Qed.

Lemma server_error_is_reported_not_fatal_witness :
  let s := state_of (connect scenario_config all_callbacks scenario_env
                       new_RTVIVoiceService) in
  let r := handleRTVIMessage
             {| msg_type := "error";
                msg_data := Some {| data_text := None; data_final := None;
                                    data_error := Some "overloaded" |} |} s in
  calls (effects r) = [OnError (Error "overloaded")] /\
  connected (state_of r) = true.
Proof.
  intros s r. unfold r.
  rewrite (server_error_is_reported_not_fatal _ "overloaded" s);
    [split; reflexivity | reflexivity | reflexivity | discriminate].
Defined.

Lemma set_accumulatedBotText_same (s : Service) :
  set_accumulatedBotText (accumulatedBotText s) s = s.
Proof. destruct s; reflexivity. Qed.

(** X3. Whatever message arrives, handling it completes normally, changes no
    field of the service other than the accumulated bot text, sends nothing
    on the channel, makes no network request, releases nothing, and never
    notifies a connection state. *)
Theorem message_handling_only_touches_buffer
  (message : RTVIMessage) (s : Service) :
  let r := handleRTVIMessage message s in
  completion r = Normal tt /\
  state_of r = set_accumulatedBotText (accumulatedBotText (state_of r)) s /\
  frames (effects r) = [] /\
  requests (effects r) = [] /\
  Forall release_free (effects r) /\
  (forall state, ~ In (OnConnectionStateChange state) (calls (effects r))).
Proof.
  intros r.
  assert (E : exists buffer cs,
    r = (Normal tt, set_accumulatedBotText buffer s,
         Console LevelLog "[RTVI] Message:" :: map Call cs) /\
    forall state, ~ In (OnConnectionStateChange state) cs).
  { unfold r, handleRTVIMessage, bind, console, emit, modify, get, call, ret.
    repeat match goal with
           | |- context [if ?b then _ else _] => destruct b
           | |- context [match message_text message with _ => _ end] =>
               destruct (message_text message)
           | |- context [match message_error message with _ => _ end] =>
               destruct (message_error message)
           end;
      cbn;
      match goal with
      | |- exists buffer cs, (_, ?st, _ :: ?t) = _ /\ _ =>
          match st with
          | set_accumulatedBotText ?b _ => exists b
          | _ => exists (accumulatedBotText s)
          end;
          match t with
          | [] => exists []
          | [Call ?c] => exists [c]
          end
      end;
      (split; [cbn; rewrite ?set_accumulatedBotText_same; reflexivity |]);
      intros state Hin; cbn in Hin;
      repeat (destruct Hin as [Hin | Hin]; [discriminate Hin |]);
      exact Hin. }
  destruct E as (buffer & cs & E & Hcs). rewrite E.
  unfold completion, state_of, effects. cbn [fst snd].
  assert (F : forall l, frames (map Call l) = [] /\
                        requests (map Call l) = [] /\
                        calls (map Call l) = l /\
                        Forall release_free (map Call l)).
  { induction l as [| c l (IH1 & IH2 & IH3 & IH4)]; cbn.
    - repeat split. constructor.
    - repeat split; try assumption; [congruence |].
      constructor; [exact I | assumption]. }
  destruct (F cs) as (F1 & F2 & F3 & F4).
  cbn [frames requests calls]. rewrite F1, F2, F3.
  split; [reflexivity |].
  split; [reflexivity |].
  split; [reflexivity |]. split; [reflexivity |].
  split; [constructor; [exact I | exact F4] | exact Hcs].
Qed.

Lemma handleAll_cons (message : RTVIMessage) (rest : list RTVIMessage)
  (s : Service) :
  completion (handleRTVIMessage message s) = Normal tt ->
  handleAll (message :: rest) s =
    (completion (handleAll rest (state_of (handleRTVIMessage message s))),
     state_of (handleAll rest (state_of (handleRTVIMessage message s))),
     effects (handleRTVIMessage message s) ++
     effects (handleAll rest (state_of (handleRTVIMessage message s)))).
Proof.
  intros H. cbn [handleAll]. rewrite bind_run, H. reflexivity.
Qed.

Lemma append_empty (a : string) : (a ++ "")%string = a.
Proof.
  induction a as [| c a IH]; [reflexivity | cbn; rewrite IH; reflexivity].
Qed.

Lemma append_assoc3 (a b c : string) :
  ((a ++ b) ++ c)%string = (a ++ b ++ c)%string.
Proof.
  induction a as [| ch a IH]; [reflexivity | cbn; rewrite IH; reflexivity].
Qed.

Lemma concat_cons (text : string) (texts : list string) :
  String.concat "" (text :: texts) =
    (text ++ String.concat "" texts)%string.
Proof.
  destruct texts; cbn; [symmetry; apply append_empty | reflexivity].
Qed.

(** X4. A run of text fragments, of either bot text type and in any mix, leaves
    the accumulated bot text extended by all the fragments in order, and the
    bot-transcript callback sees every intermediate buffer, one call per
    fragment. *)
Theorem streamed_fragments_accumulate
  (messages : list RTVIMessage) (texts : list string) (s : Service) :
  Forall2 (fun message text =>
             bot_text_type (msg_type message) /\
             message_text message = Some text)
          messages texts ->
  let r := handleAll messages s in
  completion r = Normal tt /\
  state_of r =
    set_accumulatedBotText
      (accumulatedBotText s ++ String.concat "" texts)%string s /\
  calls (effects r) =
    (if onBotTranscript (callbacks s)
     then map OnBotTranscript (running (accumulatedBotText s) texts)
     else []) /\
  List.length (running (accumulatedBotText s) texts) = List.length messages.
Proof.
  intros H. revert s.
  induction H as [| message text messages texts [Ht Hx] _ IH]; intros s r.
  - unfold r. cbn.
    rewrite append_empty, set_accumulatedBotText_same.
    destruct (onBotTranscript (callbacks s)); repeat split.
  - assert (E := handle_bot_text (msg_type message) text message s
                   Ht eq_refl Hx).
    unfold r. rewrite handleAll_cons by (rewrite E; reflexivity).
    rewrite E.
    specialize (IH (set_accumulatedBotText
                      (accumulatedBotText s ++ text)%string s)).
    cbv zeta in IH. destruct IH as (IHc & IHs & IHcalls & IHlen).
    unfold completion, state_of, effects in *. cbn [fst snd] in *.
    split; [exact IHc |].
    split.
    { rewrite IHs. cbn [accumulatedBotText set_accumulatedBotText].
      rewrite concat_cons, append_assoc3. reflexivity. }
    split.
    { rewrite calls_app, IHcalls.
      cbn [callbacks set_accumulatedBotText accumulatedBotText running map].
      destruct (onBotTranscript (callbacks s)); reflexivity. }
    cbn [running List.length]. f_equal. exact IHlen.
Qed.

Lemma streamed_fragments_accumulate_witness :
  let s := set_callbacks all_callbacks new_RTVIVoiceService in
  let r := handleAll [ fragment "bot-llm-text" "Hel";
                       fragment "bot-tts-text" "lo";
                       fragment "bot-llm-text" "!" ] s in
  accumulatedBotText (state_of r) = "Hello!" /\
  calls (effects r) =
    [OnBotTranscript "Hel"; OnBotTranscript "Hello"; OnBotTranscript "Hello!"].
Proof.
  intros s r.
  destruct (streamed_fragments_accumulate
              [ fragment "bot-llm-text" "Hel"; fragment "bot-tts-text" "lo";
                fragment "bot-llm-text" "!" ]
              [ "Hel"; "lo"; "!" ] s) as (_ & Hs & Hc & _).
  { constructor; [split; [left |]; reflexivity |].
    constructor; [split; [right |]; reflexivity |].
    constructor; [split; [left |]; reflexivity |].
    constructor. }
  fold r in Hs, Hc. split; [rewrite Hs; reflexivity | exact Hc].
Defined.

(** X5. [bot-tts-started] is handled exactly as [bot-started-speaking], and
    [bot-tts-stopped] exactly as [bot-stopped-speaking], whatever the
    payload: one speaking callback, no change of the service. *)
Theorem tts_events_alias_speaking_events
  (data : option MessageData) (s : Service) :
  handleRTVIMessage {| msg_type := "bot-tts-started"; msg_data := data |} s =
    handleRTVIMessage
      {| msg_type := "bot-started-speaking"; msg_data := data |} s /\
  handleRTVIMessage {| msg_type := "bot-tts-stopped"; msg_data := data |} s =
    handleRTVIMessage
      {| msg_type := "bot-stopped-speaking"; msg_data := data |} s /\
  handleRTVIMessage {| msg_type := "bot-tts-started"; msg_data := data |} s =
    (Normal tt, s,
     Console LevelLog "[RTVI] Message:" ::
       (if onBotStartedSpeaking (callbacks s)
        then [Call OnBotStartedSpeaking] else [])) /\
  handleRTVIMessage {| msg_type := "bot-tts-stopped"; msg_data := data |} s =
    (Normal tt, s,
     Console LevelLog "[RTVI] Message:" ::
       (if onBotStoppedSpeaking (callbacks s)
        then [Call OnBotStoppedSpeaking] else [])).
Proof.
  unfold handleRTVIMessage. cbn. rewrite !call_run.
  destruct (onBotStartedSpeaking (callbacks s));
    destruct (onBotStoppedSpeaking (callbacks s)); repeat split.
Qed.

(** * Further properties of the peer connection handlers *)



(** X7. An arriving remote audio track is bound to a new auto-playing sink, which
    replaces the sink held before without detaching it: after two audio
    tracks the service holds the second.  A track of another kind changes
    nothing.  No callback is invoked either way. *)
Theorem remote_audio_track_replaces_sink
  (track_kind : string) (first second : option string) (s : Service) :
  let r := pc_ontrack track_kind second s in
  completion r = Normal tt /\
  calls (effects r) = [] /\
  Forall release_free (effects r) /\
  (track_kind = "audio" ->
   state_of r =
     set_remoteAudio (Some {| srcObject := second; autoplay := true |}) s /\
   state_of (pc_ontrack "audio" second
               (state_of (pc_ontrack "audio" first s))) = state_of r) /\
  (track_kind <> "audio" -> state_of r = s).
Proof.
  intros r. unfold r, pc_ontrack.
  rewrite bind_run. cbn [console emit completion state_of effects fst snd].
  destruct (track_kind =? "audio") eqn:E.
  - apply String.eqb_eq in E. subst track_kind. cbn.
    split; [reflexivity |]. split; [reflexivity |].
    split; [repeat constructor |].
    split; [intros _; split; reflexivity | congruence].
  - apply String.eqb_neq in E. cbn.
    split; [reflexivity |]. split; [reflexivity |].
    split; [repeat constructor |].
    split; [congruence | reflexivity].
Qed.

Lemma remote_audio_track_replaces_sink_witness :
  remoteAudio
    (state_of (pc_ontrack "audio" (Some "remote-2")
                 (state_of (pc_ontrack "audio" (Some "remote-1")
                              new_RTVIVoiceService)))) =
    Some {| srcObject := Some "remote-2"; autoplay := true |} /\
  state_of (pc_ontrack "video" (Some "remote-1") new_RTVIVoiceService) =
    new_RTVIVoiceService.
Proof.
  destruct (remote_audio_track_replaces_sink "audio" (Some "remote-1")
              (Some "remote-2") new_RTVIVoiceService)
    as (_ & _ & _ & Haudio & _).
  destruct (Haudio eq_refl) as [_ Htwice].
  destruct (remote_audio_track_replaces_sink "video" None
              (Some "remote-1") new_RTVIVoiceService)
    as (_ & _ & _ & _ & Hvideo).
  split; [rewrite Htwice; reflexivity | apply Hvideo; discriminate].
Defined.

Lemma set_pc_update_same (s : Service) (p : RTCPeerConnection) :
  pc s = Some p -> set_pc (Some p) s = s.
Proof.
  destruct s; cbn; intros ->; reflexivity.
Qed.

Lemma fire_datachannel (channel_label channel_state : string)
  (p : RTCPeerConnection) (s : Service) :
  pc s = Some p -> pc_handlers p = true ->
  fire (EvDataChannel channel_label channel_state) s =
    (Normal tt,
     set_dc (Some {| label := channel_label; dc_handlers := true;
                     readyState := channel_state |}) s,
     [Console LevelLog "[RTVI] Data channel received:"]).
Proof.
  intros Hpc Hh. unfold fire, on_pc. rewrite Hpc. cbn zeta. rewrite Hh.
  rewrite (set_pc_update_same s p Hpc).
  reflexivity.
Qed.

(** X8. The data channel announced by the peer connection becomes the control
    channel of the service, with its handlers installed, replacing any
    channel held before; nothing is sent on arrival.  The handshake goes out
    on that channel when it reports open: one [client-ready] frame, labelled
    with the channel's own label. *)
Theorem announced_channel_gets_handshake
  (channel_label channel_state uuid : string) (p : RTCPeerConnection)
  (s : Service) :
  pc s = Some p ->
  pc_handlers p = true ->
  let arrived := fire (EvDataChannel channel_label channel_state) s in
  let opened := fire (EvChannelOpen uuid) (state_of arrived) in
  state_of arrived =
    set_dc (Some {| label := channel_label; dc_handlers := true;
                    readyState := channel_state |}) s /\
  frames (effects arrived) = [] /\
  calls (effects arrived) = [] /\
  effects opened =
    [ Console LevelLog "[RTVI] Data channel open";
      ChannelSend channel_label (clientReadyMessage uuid);
      Console LevelLog "[RTVI] Sent client-ready message" ] /\
  option_map readyState (dc (state_of opened)) = Some "open".
Proof.
  intros Hpc Hh arrived opened. unfold opened, arrived.
  rewrite (fire_datachannel channel_label channel_state p s Hpc Hh).
  unfold state_of at 1 2 3, effects at 1 2. cbn [fst snd].
  rewrite (fire_open uuid
             {| label := channel_label; dc_handlers := true;
                readyState := channel_state |}) by reflexivity.
  repeat split.
Qed.

Lemma announced_channel_gets_handshake_witness :
  let s := state_of (connect scenario_config all_callbacks scenario_env
                       new_RTVIVoiceService) in
  frames (effects
    (fire (EvChannelOpen "123e4567-e89b-12d3-a456-426614174000")
       (state_of (fire (EvDataChannel "rtvi" "connecting") s)))) =
    [clientReadyMessage "123e4567-e89b-12d3-a456-426614174000"].
Proof.
  intros s.
  destruct (announced_channel_gets_handshake "rtvi" "connecting"
              "123e4567-e89b-12d3-a456-426614174000"
              {| iceServers := default_iceServers; pc_handlers := true;
                 senders := ["mic"];
                 localDescription :=
                   Some {| sd_type := "offer"; sdp := "v=0" |};
                 remoteDescription :=
                   Some {| sd_type := "answer"; sdp := "v=0" |};
                 iceConnectionState := "new";
                 connectionState := "new" |}
              s eq_refl eq_refl) as (_ & _ & _ & Hopen & _).
  rewrite Hopen. reflexivity.
Defined.

(** X9. [sendClientReady] never sends on a channel that is not open: without a
    channel, or with one whose ready state is not [open], it only logs a
    warning and leaves the service unchanged. *)
Theorem client_ready_needs_open_channel (uuid : string) (s : Service) :
  (dc s = None \/
   exists channel, dc s = Some channel /\ readyState channel <> "open") ->
  sendClientReady uuid s =
    (Normal tt, s,
     [Console LevelWarn
        "[RTVI] Cannot send client-ready: data channel not open"]).
Proof.
  intros H. unfold sendClientReady. rewrite bind_run.
  cbn [get completion state_of effects fst snd app].
  destruct H as [-> | (channel & -> & Hne)]; [reflexivity |].
  apply String.eqb_neq in Hne. rewrite Hne. reflexivity.
Qed.

Lemma client_ready_needs_open_channel_witness :
  frames (effects (sendClientReady "123e4567-e89b-12d3-a456-426614174000"
                     new_RTVIVoiceService)) = [] /\
  frames (effects
    (sendClientReady "123e4567-e89b-12d3-a456-426614174000"
       (set_dc (Some {| label := "rtvi"; dc_handlers := true;
                        readyState := "closing" |})
          new_RTVIVoiceService))) = [].
Proof.
  split.
  - rewrite (client_ready_needs_open_channel _ new_RTVIVoiceService);
      [reflexivity | left; reflexivity].
  - rewrite client_ready_needs_open_channel; [reflexivity |].
    right. eexists. split; [reflexivity | discriminate].
Defined.

(** X10. Every ICE connection state change is forwarded to the connection-state
    callback with the state read from the peer connection, [unknown] when
    that state is empty or no peer connection is held; a change of the
    overall connection state invokes no callback at all. *)
Theorem ice_states_are_notified_overall_states_are_not
  (state : string) (p : RTCPeerConnection) (s : Service) :
  pc s = Some p ->
  pc_handlers p = true ->
  calls (effects (fire (EvIceConnectionState state) s)) =
    (if onConnectionStateChange (callbacks s)
     then [OnConnectionStateChange
             (if state =? "" then "unknown" else state)]
     else []) /\
  calls (effects (fire (EvConnectionState state) s)) = [] /\
  calls (effects (pc_oniceconnectionstatechange (set_pc None s))) =
    (if onConnectionStateChange (callbacks s)
     then [OnConnectionStateChange "unknown"] else []) /\
  calls (effects (pc_onconnectionstatechange (set_pc None s))) = [].
Proof.
  intros Hpc Hh.
  assert (U : or_unknown (Some state) =
              if state =? "" then "unknown" else state).
  { unfold or_unknown, truthy, show_opt. destruct (state =? ""); reflexivity. }
  split; [| split; [| split]].
  - unfold fire, on_pc. rewrite Hpc. cbn zeta. rewrite Hh.
    unfold isolate, pc_oniceconnectionstatechange, bind, get, console, emit,
      call, modify, ret, effects.
    cbn [pc set_pc option_map iceConnectionState with_iceConnectionState
         callbacks fst snd].
    rewrite U.
    destruct (onConnectionStateChange (callbacks s));
      destruct (terminal (if state =? "" then "unknown" else state));
      reflexivity.
  - unfold fire, on_pc. rewrite Hpc. cbn zeta. rewrite Hh.
    unfold isolate, pc_onconnectionstatechange, bind, get, console, emit,
      modify, ret, effects.
    cbn [pc set_pc option_map connectionState with_connectionState fst snd].
    destruct (or_unknown (Some state) =? "connected"); [reflexivity |].
    destruct (terminal (or_unknown (Some state))); reflexivity.
  - unfold pc_oniceconnectionstatechange, bind, get, console, emit, call,
      modify, ret, effects.
    cbn. destruct (onConnectionStateChange (callbacks s)); reflexivity.
  - reflexivity.
Qed.

Lemma ice_states_are_notified_overall_states_are_not_witness :
  let s := state_of (connect scenario_config all_callbacks scenario_env
                       new_RTVIVoiceService) in
  calls (effects (fire (EvIceConnectionState "checking") s)) =
    [OnConnectionStateChange "checking"] /\
  calls (effects (fire (EvConnectionState "failed") s)) = [].
Proof.
  intros s.
  destruct (ice_states_are_notified_overall_states_are_not "checking"
              {| iceServers := default_iceServers; pc_handlers := true;
                 senders := ["mic"];
                 localDescription :=
                   Some {| sd_type := "offer"; sdp := "v=0" |};
                 remoteDescription :=
                   Some {| sd_type := "answer"; sdp := "v=0" |};
                 iceConnectionState := "new";
                 connectionState := "new" |}
              s eq_refl eq_refl) as (Hice & _).
  destruct (ice_states_are_notified_overall_states_are_not "failed"
              {| iceServers := default_iceServers; pc_handlers := true;
                 senders := ["mic"];
                 localDescription :=
                   Some {| sd_type := "offer"; sdp := "v=0" |};
                 remoteDescription :=
                   Some {| sd_type := "answer"; sdp := "v=0" |};
                 iceConnectionState := "new";
                 connectionState := "new" |}
              s eq_refl eq_refl) as (_ & Hconn & _).
  split; [exact Hice | exact Hconn].
Defined.

(** * Further properties of the session facade *)

Lemma set_localStream_same (s : Service) :
  set_localStream (localStream s) s = s.
Proof. destruct s; reflexivity. Qed.

Lemma setMicMuted_run (muted : bool) (s : Service) :
  setMicMuted muted s =
    match localStream s with
    | Some stream =>
        (Normal tt,
         set_localStream
           (Some {| stream_id := stream_id stream;
                    getTracks :=
                      map (fun t => if is_audio t
                                    then with_enabled (negb muted) t else t)
                          (getTracks stream) |}) s,
         [Console LevelLog "[RTVI] Mic"])
    | None => (Normal tt, s, [])
    end.
Proof.
  unfold setMicMuted. rewrite bind_run.
  cbn [get completion state_of effects fst snd app].
  destruct (localStream s); reflexivity.
Qed.

Lemma muted_tracks_read (muted : bool) (tracks : list MediaStreamTrack) :
  match
    filter is_audio
      (map (fun t => if is_audio t then with_enabled (negb muted) t else t)
           tracks)
  with
  | audioTrack :: _ => negb (enabled audioTrack)
  | [] => true
  end = if existsb is_audio tracks then muted else true.
Proof.
  induction tracks as [| t tracks IH]; [reflexivity |].
  cbn [map filter existsb].
  destruct (is_audio t) eqn:E.
  - rewrite is_audio_with_enabled, E. cbn. apply negb_involutive.
  - rewrite E. cbn. exact IH.
Qed.

Lemma muted_tracks_twice (b1 b2 : bool) (tracks : list MediaStreamTrack) :
  map (fun t => if is_audio t then with_enabled b2 t else t)
    (map (fun t => if is_audio t then with_enabled b1 t else t) tracks) =
  map (fun t => if is_audio t then with_enabled b2 t else t) tracks.
Proof.
  rewrite map_map. apply map_ext. intros t.
  destruct (is_audio t) eqn:E.
  - rewrite is_audio_with_enabled, E. reflexivity.
  - rewrite E. reflexivity.
Qed.

(** X11. [isMicMuted] after [setMicMuted(muted)] reads [muted] when the local
    stream has an audio track, and [true] when there is no stream or no audio
    track in it; the last of two calls decides, so unmuting undoes muting;
    and [setMicMuted] changes nothing but the local stream and invokes no
    callback. *)
Theorem mute_is_read_back_and_last_call_wins
  (first muted : bool) (s : Service) :
  let r := setMicMuted muted s in
  completion r = Normal tt /\
  calls (effects r) = [] /\
  state_of r = set_localStream (localStream (state_of r)) s /\
  isMicMuted (state_of r) =
    match localStream s with
    | Some stream => if existsb is_audio (getTracks stream) then muted
                     else true
    | None => true
    end /\
  state_of (setMicMuted muted (state_of (setMicMuted first s))) = state_of r.
Proof.
  intros r. unfold r. rewrite !setMicMuted_run.
  destruct (localStream s) as [stream |] eqn:E;
    unfold completion, state_of, effects; cbn [fst snd].
  - split; [reflexivity |]. split; [reflexivity |].
    split; [reflexivity |].
    split.
    + unfold isMicMuted, getAudioTracks.
      cbn [localStream set_localStream getTracks].
      apply muted_tracks_read.
    + cbn [localStream set_localStream getTracks stream_id fst snd].
      rewrite muted_tracks_twice. reflexivity.
  - split; [reflexivity |]. split; [reflexivity |].
    split; [symmetry; apply set_localStream_same |].
    split; [unfold isMicMuted; rewrite E; reflexivity |].
    cbn [fst snd]. rewrite E. reflexivity.
Qed.

(** X12. A second [disconnect] in a row releases nothing, no track is stopped and
    nothing is closed twice, but it notifies [disconnected] again; the first
    one releases exactly what the service held. *)
Theorem second_disconnect_releases_nothing (s : Service) :
  let first := disconnect s in
  let second := disconnect (state_of first) in
  effects first =
    Console LevelLog "[RTVI] Disconnecting..." ::
    released s ++
    (if onConnectionStateChange (callbacks s)
     then [Call (OnConnectionStateChange "disconnected")] else []) ++
    [Console LevelLog "[RTVI] Disconnected"] /\
  effects second =
    Console LevelLog "[RTVI] Disconnecting..." ::
    (if onConnectionStateChange (callbacks s)
     then [Call (OnConnectionStateChange "disconnected")] else []) ++
    [Console LevelLog "[RTVI] Disconnected"] /\
  Forall release_free (effects second) /\
  calls (effects second) = calls (effects first) /\
  calls (effects first) =
    (if onConnectionStateChange (callbacks s)
     then [OnConnectionStateChange "disconnected"] else []).
Proof.
  intros first second. unfold second, first.
  rewrite (proj2 (disconnect_state s)), !disconnect_effects.
  unfold released at 2 3 4. cbn [pre_connect localStream remoteAudio dc pc
    callbacks app].
  assert (C : calls (released s) = []).
  { unfold released. rewrite !calls_app.
    assert (M : forall l : list MediaStreamTrack,
              calls (map (fun t => TrackStop (track_id t)) l) = []).
    { induction l; [reflexivity | exact IHl]. }
    destruct (localStream s), (remoteAudio s), (dc s), (pc s);
      rewrite ?M; reflexivity. }
  split; [reflexivity |]. split; [reflexivity |].
  split; [destruct (onConnectionStateChange (callbacks s));
          repeat constructor |].
  cbn [calls]. rewrite !calls_app, C.
  destruct (onConnectionStateChange (callbacks s)); split; reflexivity.
Qed.

(** ** What events never do *)

Lemma retains_refl (s : Service) : retains s s [].
Proof. split; [reflexivity | constructor]. Qed.

Lemma retains_trans (s1 s2 s3 : Service) (t1 t2 : list Effect) :
  retains s1 s2 t1 -> retains s2 s3 t2 -> retains s1 s3 (t1 ++ t2).
Proof.
  unfold retains. intros [L1 F1] [L2 F2].
  split; [congruence | apply Forall_app; split; assumption].
Qed.

Ltac retains_atoms :=
  intros; unfold retains; cbn;
  repeat match goal with
         | |- context [match ?x with _ => _ end] => destruct x eqn:?
         end;
  cbn; (split; [reflexivity | repeat constructor]).

Lemma retains_handleRTVIMessage (message : RTVIMessage) :
  respects retains (handleRTVIMessage message).
Proof.
  unfold handleRTVIMessage.
  respects_walk retains_refl retains_trans; retains_atoms.
Qed.

Lemma retains_pc_update (f : RTCPeerConnection -> RTCPeerConnection)
  (s : Service) (p : RTCPeerConnection) :
  pc s = Some p -> retains s (set_pc (Some (f p)) s) [].
Proof. intros _. split; [reflexivity | constructor]. Qed.

Lemma retains_dc_update (f : RTCDataChannel -> RTCDataChannel)
  (s : Service) (c : RTCDataChannel) :
  dc s = Some c -> retains s (set_dc (Some (f c)) s) [].
Proof. intros _. split; [reflexivity | constructor]. Qed.

Lemma retains_fire (e : Event) : respects retains (fire e).
Proof.
  destruct e; cbn [fire].
  - apply (respects_on_pc _ retains_refl retains_trans);
      [apply retains_pc_update |].
    unfold pc_ontrack.
    respects_walk retains_refl retains_trans; retains_atoms.
  - apply (respects_on_pc _ retains_refl retains_trans);
      [apply retains_pc_update |].
    unfold pc_ondatachannel, setupDataChannelHandlers.
    respects_walk retains_refl retains_trans; retains_atoms.
  - apply (respects_on_pc _ retains_refl retains_trans);
      [apply retains_pc_update |].
    unfold pc_oniceconnectionstatechange.
    respects_walk retains_refl retains_trans; retains_atoms.
  - apply (respects_on_pc _ retains_refl retains_trans);
      [apply retains_pc_update |].
    unfold pc_onconnectionstatechange.
    respects_walk retains_refl retains_trans; retains_atoms.
  - apply (respects_on_pc _ retains_refl retains_trans);
      [apply retains_pc_update |].
    unfold pc_onicecandidate.
    respects_walk retains_refl retains_trans; retains_atoms.
  - apply (respects_on_dc _ retains_refl retains_trans);
      [apply retains_dc_update |].
    unfold dc_onopen, sendClientReady.
    respects_walk retains_refl retains_trans; retains_atoms.
  - apply (respects_on_dc _ retains_refl retains_trans);
      [apply retains_dc_update |].
    unfold dc_onclose.
    respects_walk retains_refl retains_trans; retains_atoms.
  - apply (respects_on_dc _ retains_refl retains_trans);
      [apply retains_dc_update |].
    unfold dc_onmessage.
    apply (respects_try_catch _ retains_trans).
    + apply (respects_bind _ retains_trans).
      * destruct parsed; respects_walk retains_refl retains_trans.
      * intros message. apply retains_handleRTVIMessage.
    + intros _. respects_walk retains_refl retains_trans; retains_atoms.
Qed.

(** X13. No event releases anything: whatever the platform dispatches, a terminal
    transport state included, the service stops no track, closes neither
    channel nor connection, detaches no sink and keeps its local stream, so
    the microphone reads as before until [disconnect] is called. *)
Theorem events_release_nothing (events : list Event) (s : Service) :
  let r := fire_all events s in
  completion r = Normal tt /\
  localStream (state_of r) = localStream s /\
  isMicMuted (state_of r) = isMicMuted s /\
  Forall release_free (effects r) /\
  (forall track, ~ In (TrackStop track) (effects r)) /\
  ~ In PeerClose (effects r).
Proof.
  intros r. unfold r.
  destruct (respects_fire_all retains retains_refl retains_trans events
              (fun e _ => retains_fire e) s) as [Hl Hf].
  split; [apply fire_all_normal |].
  split; [exact Hl |].
  split; [unfold isMicMuted; rewrite Hl; reflexivity |].
  split; [exact Hf |].
  rewrite Forall_forall in Hf.
  split; [intros track Hin | intros Hin]; apply (Hf _ Hin).
Qed.

(** ** A call of [connect] that no event disturbs *)

Lemma await_resolved {A} (a : Awaited A) (v : A) (s : Service) :
  during a = [] -> settled a = inr v -> await a s = (Normal v, s, []).
Proof.
  intros Hd Hs. unfold await. rewrite Hd, Hs. reflexivity.
Qed.

Lemma await_rejected {A} (a : Awaited A) (e : JsError) (s : Service) :
  during a = [] -> settled a = inl e -> await a s = (Throw e, s, []).
Proof.
  intros Hd Hs. unfold await. rewrite Hd, Hs. reflexivity.
Qed.

Lemma with_senders_same (p : RTCPeerConnection) :
  with_senders (senders p) p = p.
Proof. destruct p; reflexivity. Qed.

Lemma addTracks_run (tracks : list MediaStreamTrack) (p : RTCPeerConnection)
  (s : Service) :
  pc s = Some p ->
  addTracks tracks s =
    (Normal tt,
     set_pc (Some (with_senders (senders p ++ map track_id tracks) p)) s,
     []).
Proof.
  revert p s. induction tracks as [| t tracks IH]; intros p s Hpc.
  - cbn. rewrite app_nil_r, with_senders_same, (set_pc_update_same s p Hpc).
    reflexivity.
  - cbn [addTracks]. unfold this_pc, update_pc.
    rewrite !bind_run.
    cbn [get modify completion state_of effects fst snd app]. rewrite Hpc.
    cbn [ret modify completion state_of effects fst snd app].
    rewrite ?Hpc.
    rewrite (IH (with_senders (senders p ++ [track_id t]) p)) by reflexivity.
    cbn [completion state_of effects fst snd app senders with_senders map].
    rewrite <- app_assoc. destruct s; reflexivity.
Qed.

Lemma negotiate_undisturbed (config : RTVIConfig) (env : ConnectEnv)
  (body : StartBody) (stream : MediaStream) (offer : RTCSessionDescription)
  (answer : Answer) (s : Service) :
  undisturbed env ->
  signaling_succeeds env body offer answer ->
  (mic_wanted config = true -> settled (userMedia env) = inr stream) ->
  negotiate config env s =
    (Normal tt,
     set_pc
       (Some (negotiated_pc body
                (if mic_wanted config then getTracks stream else [])
                offer answer))
       (set_localStream
          (if mic_wanted config then Some stream else localStream s)
          (set_sessionId (body_sessionId body) s)),
     [ Console LevelLog "[RTVI] Creating session...";
       Fetch "POST" (serverUrl s ++ "/start")
         (JObject [ ("enableDefaultIceServers", JBool true) ]);
       Console LevelLog "[RTVI] Session created:" ] ++
     (if mic_wanted config
      then [ Console LevelLog "[RTVI] Requesting microphone access...";
             GetUserMedia (cam_wanted config);
             Console LevelLog "[RTVI] Local audio track added" ]
      else []) ++
     [ Console LevelLog "[RTVI] Creating WebRTC offer...";
       Fetch "POST"
         (serverUrl s ++ "/sessions/" ++ show_opt (body_sessionId body)
          ++ "/api/offer")
         (JObject [ ("sdp", JString (sdp offer));
                    ("type", JString (sd_type offer)) ]);
       Console LevelLog "[RTVI] Received answer, pc_id:" ]).
Proof.
  intros (D1 & D2 & D3 & D4 & D5 & D6 & D7 & D8)
         ((r1 & S1 & Ok1) & S2 & S3 & S4 & S5 & (r2 & S6 & Ok2) & S7 & S8)
         Hmedia.
  unfold negotiate, step1_create_session, step2_create_peer_connection,
    step3_local_stream, step4_create_offer, step5_exchange_offer,
    step6_set_remote_description, bind, console, emit, get, modify, ret,
    setupPeerConnectionHandlers, this_pc, update_pc.
  rewrite (await_resolved _ r1 s D1 S1), Ok1. cbn -[await addTracks].
  rewrite (await_resolved _ body s D2 S2). cbn -[await addTracks].
  rewrite S3. cbn -[await addTracks].
  destruct (mic_wanted config) eqn:M; cbn -[await addTracks].
  - rewrite (await_resolved _ stream _ D3 (Hmedia eq_refl)).
    cbn -[await addTracks].
    erewrite addTracks_run by reflexivity. cbn -[await addTracks].
    rewrite (await_resolved _ offer _ D4 S4). cbn -[await addTracks].
    rewrite (await_resolved _ tt _ D5 S5). cbn -[await addTracks].
    rewrite (await_resolved _ r2 _ D6 S6), Ok2. cbn -[await addTracks].
    rewrite (await_resolved _ answer _ D7 S7). cbn -[await addTracks].
    rewrite (await_resolved _ tt _ D8 S8). cbn -[await addTracks].
    destruct s; reflexivity.
  - rewrite (await_resolved _ offer _ D4 S4). cbn -[await addTracks].
    rewrite (await_resolved _ tt _ D5 S5). cbn -[await addTracks].
    rewrite (await_resolved _ r2 _ D6 S6), Ok2. cbn -[await addTracks].
    rewrite (await_resolved _ answer _ D7 S7). cbn -[await addTracks].
    rewrite (await_resolved _ tt _ D8 S8). cbn -[await addTracks].
    destruct s; reflexivity.
Qed.

Lemma negotiate_outcome_of_run (config : RTVIConfig) (env : ConnectEnv)
  (s s' : Service) (t : list Effect) :
  negotiate config env s = (Normal tt, s', t) ->
  negotiate_outcome config env = inr tt.
Proof.
  intros H. pose proof (negotiate_completion config env s) as C.
  rewrite H in C. cbn in C.
  destruct (negotiate_outcome config env) as [e | []];
    [discriminate C | reflexivity].
Qed.

(** X14. When every step succeeds and the microphone is wanted, an undisturbed
    [connect] resolves with the service holding the session id of the
    [/start] answer, the acquired stream, and a peer connection built on the
    answer's ICE servers (the public STUN server when the answer names none),
    carrying one sender per local track and both descriptions; the flag is
    up, the accumulated text is empty, and whatever channel or sink the
    service held before is still held.  It makes exactly two requests, a
    [POST] to [/start] then a [POST] of the offer to the session's offer
    endpoint ([sessions/undefined] when the answer had no session id), asks
    for the camera only if [enableCam] is set, and sends no frame. *)
Theorem undisturbed_connect_establishes_session
  (config : RTVIConfig) (cbs : RTVICallbacks) (env : ConnectEnv)
  (body : StartBody) (stream : MediaStream) (offer : RTCSessionDescription)
  (answer : Answer) (s : Service) :
  undisturbed env ->
  signaling_succeeds env body offer answer ->
  mic_wanted config = true ->
  settled (userMedia env) = inr stream ->
  let r := connect config cbs env s in
  completion r = Normal tt /\
  state_of r =
    {| pc := Some (negotiated_pc body (getTracks stream) offer answer);
       dc := dc s;
       localStream := Some stream;
       remoteAudio := remoteAudio s;
       sessionId := body_sessionId body;
       serverUrl := cfg_serverUrl config;
       callbacks := cbs;
       _connected := true;
       accumulatedBotText := "" |} /\
  requests (effects r) =
    [ ("POST", cfg_serverUrl config ++ "/start")%string;
      ("POST",
       cfg_serverUrl config ++ "/sessions/" ++ show_opt (body_sessionId body)
       ++ "/api/offer")%string ] /\
  frames (effects r) = [] /\
  calls (effects r) =
    (if onConnectionStateChange cbs
     then [OnConnectionStateChange "connected"] else []) /\
  (forall video,
     In (GetUserMedia video) (effects r) <-> video = cam_wanted config) /\
  (iceConfig body = None ->
   option_map iceServers (pc (state_of r)) =
     Some [ {| urls := "stun:stun.l.google.com:19302" |} ]).
Proof.
  intros Hq Hs Hmic Hmedia r.
  pose proof (negotiate_undisturbed config env body stream offer answer
                (connect_entry config cbs s) Hq Hs (fun _ => Hmedia)) as N.
  rewrite Hmic in N.
  assert (E : r = _) by (unfold r; apply connect_run).
  cbv zeta in E.
  rewrite (negotiate_outcome_of_run _ _ _ _ _ N), N in E.
  rewrite E. unfold completion, state_of, effects. cbn [fst snd].
  split; [reflexivity |].
  split; [destruct s; reflexivity |].
  split; [cbn; destruct (onConnectionStateChange cbs); reflexivity |].
  split; [cbn; destruct (onConnectionStateChange cbs); reflexivity |].
  split; [cbn; destruct (onConnectionStateChange cbs); reflexivity |].
  split.
  - intros video. cbn. split.
    + intros H.
      repeat (destruct H as [H | H]; [try discriminate H |]).
      * injection H as <-. reflexivity.
      * destruct (onConnectionStateChange cbs); cbn in H;
          repeat (destruct H as [H | H]; [discriminate H |]); contradiction.
    + intros ->. do 4 right. left. reflexivity.
  - intros Hice. cbn. unfold chosen_iceServers. rewrite Hice. reflexivity.
Qed.

Lemma undisturbed_connect_establishes_session_witness :
  let r := connect scenario_config all_callbacks scenario_env
             new_RTVIVoiceService in
  requests (effects r) =
    [ ("POST", "http://x/start"); ("POST", "http://x/sessions/s1/api/offer") ]
  /\ sessionId (state_of r) = Some "s1"
  /\ option_map senders (pc (state_of r)) = Some ["mic"].
Proof.
  intros r.
  destruct (undisturbed_connect_establishes_session scenario_config
              all_callbacks scenario_env
              {| body_sessionId := Some "s1"; iceConfig := None |}
              {| stream_id := "local";
                 getTracks := [ {| track_id := "mic"; kind := "audio";
                                   enabled := true |} ] |}
              {| sd_type := "offer"; sdp := "v=0" |}
              {| answer_type := "answer"; answer_sdp := "v=0" |}
              new_RTVIVoiceService)
    as (_ & Hstate & Hreq & _).
  - repeat split.
  - unfold signaling_succeeds. cbn.
    repeat split; try (exists {| status := 200 |}; split; reflexivity).
  - reflexivity.
  - reflexivity.
  - fold r in Hstate, Hreq. split; [exact Hreq |].
    rewrite Hstate. split; reflexivity.
Defined.

(** X15. When the microphone cannot be acquired, an undisturbed [connect] rejects
    with the platform's own error, unwrapped, hands that error to the error
    callback, closes the peer connection it had just built and makes no
    request beyond [/start]: no offer is created or posted. *)
Theorem media_failure_rejects_with_platform_error
  (config : RTVIConfig) (cbs : RTVICallbacks) (env : ConnectEnv)
  (response : Response) (body : StartBody) (e : JsError) (s : Service) :
  undisturbed env ->
  settled (startResponse env) = inr response -> ok response = true ->
  settled (startBody env) = inr body ->
  peerConstruct env = inr tt ->
  mic_wanted config = true ->
  settled (userMedia env) = inl e ->
  let r := connect config cbs env s in
  completion r = Throw e /\
  state_of r = pre_connect (connect_entry config cbs s) /\
  requests (effects r) = [ ("POST", cfg_serverUrl config ++ "/start")%string ]
  /\ In PeerClose (effects r) /\
  (onError cbs = true -> In (OnError e) (calls (effects r))) /\
  isMicMuted (state_of r) = true.
Proof.
  intros (D1 & D2 & D3 & _) S1 Ok1 S2 S3 Hmic Hmedia r.
  assert (O : negotiate_outcome config env = inl e).
  { unfold negotiate_outcome, step1_outcome, step3_outcome, check_ok.
    rewrite S1. cbn [and_then]. rewrite Ok1. cbn [negb and_then].
    rewrite S2, S3. cbn [and_then]. rewrite Hmic, Hmedia. reflexivity. }
  assert (N : negotiate config env (connect_entry config cbs s) =
    (Throw e,
     set_pc (Some {| iceServers := chosen_iceServers body;
                      pc_handlers := true; senders := [];
                      localDescription := None; remoteDescription := None;
                      iceConnectionState := "new";
                      connectionState := "new" |})
       (set_sessionId (body_sessionId body) (connect_entry config cbs s)),
     [ Console LevelLog "[RTVI] Creating session...";
       Fetch "POST" (cfg_serverUrl config ++ "/start")
         (JObject [ ("enableDefaultIceServers", JBool true) ]);
       Console LevelLog "[RTVI] Session created:";
       Console LevelLog "[RTVI] Requesting microphone access...";
       GetUserMedia (cam_wanted config) ])).
  { unfold negotiate, step1_create_session, step2_create_peer_connection,
      step3_local_stream, bind, console, emit, get, modify, ret,
      setupPeerConnectionHandlers.
    rewrite (await_resolved _ response _ D1 S1), Ok1. cbn -[await addTracks].
    rewrite (await_resolved _ body _ D2 S2). cbn -[await addTracks].
    rewrite S3. cbn -[await addTracks]. rewrite Hmic. cbn -[await addTracks].
    rewrite (await_rejected _ e _ D3 Hmedia).
    destruct s; reflexivity. }
  assert (E : r = _) by (unfold r; apply connect_run).
  cbv zeta in E. rewrite O, N in E. rewrite E.
  rewrite disconnect_effects.
  unfold completion, state_of, effects. cbn [fst snd].
  split; [reflexivity |]. split; [reflexivity |].
  assert (R : requests (released
                (set_pc (Some {| iceServers := chosen_iceServers body;
                      pc_handlers := true; senders := [];
                      localDescription := None; remoteDescription := None;
                      iceConnectionState := "new";
                      connectionState := "new" |})
                   (set_sessionId (body_sessionId body)
                      (connect_entry config cbs s)))) = [] /\
              calls (released
                (set_pc (Some {| iceServers := chosen_iceServers body;
                      pc_handlers := true; senders := [];
                      localDescription := None; remoteDescription := None;
                      iceConnectionState := "new";
                      connectionState := "new" |})
                   (set_sessionId (body_sessionId body)
                      (connect_entry config cbs s)))) = []).
  { unfold released. cbn [localStream remoteAudio dc pc set_pc set_sessionId
      connect_entry set_accumulatedBotText set_callbacks set_serverUrl].
    assert (M : forall l : list MediaStreamTrack,
              requests (map (fun t => TrackStop (track_id t)) l) = [] /\
              calls (map (fun t => TrackStop (track_id t)) l) = []).
    { induction l as [| t l [IH1 IH2]]; split; cbn; auto. }
    assert (RA : forall (a b : list Effect),
              requests (a ++ b) = requests a ++ requests b).
    { induction a as [| x a IHa]; intros b; [reflexivity |].
      destruct x; cbn; rewrite IHa; reflexivity. }
    rewrite !RA, !calls_app.
    destruct (localStream s) as [st |], (remoteAudio s), (dc s); cbn;
      try (destruct (M (getTracks st)) as [M1 M2]; rewrite M1, M2);
      split; reflexivity. }
  destruct R as [R1 R2].
  assert (RA : forall (a b : list Effect),
            requests (a ++ b) = requests a ++ requests b).
  { induction a as [| x a IHa]; intros b; [reflexivity |].
    destruct x; cbn; rewrite IHa; reflexivity. }
  split.
  { cbn [app requests]. rewrite RA. cbn [requests]. rewrite RA. cbn [requests].
    rewrite RA, R1.
    destruct (onError cbs);
      cbn [callbacks set_pc set_sessionId connect_entry
           set_accumulatedBotText set_callbacks];
      destruct (onConnectionStateChange cbs); reflexivity. }
  split.
  { apply in_or_app. right. right. apply in_or_app. right. right.
    apply in_or_app. left. unfold released. cbn [pc set_pc].
    apply in_or_app. right. apply in_or_app. right.
    apply in_or_app. right. left. reflexivity. }
  split.
  { intros ->. rewrite calls_app. apply in_or_app. right.
    cbn. left. reflexivity. }
  reflexivity.
Qed.

Lemma media_failure_rejects_with_platform_error_witness :
  let e := {| err_name := "NotAllowedError";
              err_message := "Permission denied" |} in
  let r := connect scenario_config all_callbacks scenario_env_denied
             new_RTVIVoiceService in
  completion r = Throw e /\
  requests (effects r) = [ ("POST", "http://x/start") ] /\
  In PeerClose (effects r) /\
  In (OnError e) (calls (effects r)).
Proof.
  intros e r.
  destruct (media_failure_rejects_with_platform_error scenario_config
              all_callbacks scenario_env_denied {| status := 200 |}
              {| body_sessionId := Some "s1"; iceConfig := None |} e
              new_RTVIVoiceService)
    as (Hc & _ & Hreq & Hclose & Herr & _);
    try reflexivity.
  - repeat split.
  - split; [exact Hc |]. split; [exact Hreq |].
    split; [exact Hclose | apply Herr; reflexivity].
Defined.

(** ** [connect] without the microphone *)

Lemma retains_await {A} (a : Awaited A) : respects retains (await a).
Proof.
  apply (respects_await _ retains_refl retains_trans).
  intros e _. apply retains_fire.
Qed.

Lemma retains_negotiate_without_mic (config : RTVIConfig)
  (env : ConnectEnv) :
  mic_wanted config = false -> respects retains (negotiate config env).
Proof.
  intros M.
  assert (S3 : step3_local_stream config env = ret tt).
  { unfold step3_local_stream. rewrite M. reflexivity. }
  unfold negotiate. rewrite S3.
  unfold step1_create_session, step2_create_peer_connection,
    step4_create_offer, step5_exchange_offer,
    step6_set_remote_description, setupPeerConnectionHandlers, this_pc,
    update_pc.
  respects_walk retains_refl retains_trans;
    try apply retains_await; retains_atoms.
Qed.

Lemma no_media_request_in_disconnect (video : bool) (s : Service) :
  ~ In (GetUserMedia video) (effects (disconnect s)).
Proof.
  rewrite disconnect_effects. unfold released. intros H.
  destruct H as [H | H]; [discriminate H |].
  repeat (apply in_app_or in H; destruct H as [H | H]).
  - destruct (localStream s); [| exact H].
    apply in_map_iff in H. destruct H as (t & H & _). discriminate H.
  - destruct (remoteAudio s); [| exact H].
    destruct H as [H | []]. discriminate H.
  - destruct (dc s); [| exact H]. destruct H as [H | []]. discriminate H.
  - destruct (pc s); [| exact H]. destruct H as [H | []]. discriminate H.
  - destruct (onConnectionStateChange (callbacks s)); [| exact H].
    destruct H as [H | []]. discriminate H.
  - destruct H as [H | []]. discriminate H.
Qed.

(** X16. With [enableMic: false], [connect] never asks for the microphone or the
    camera, whatever the platform answers and whatever events interleave;
    when it resolves, the local stream is the one the service held on entry,
    so a service that held none stays muted. *)
Theorem connect_without_mic_never_requests_media
  (config : RTVIConfig) (cbs : RTVICallbacks) (env : ConnectEnv)
  (s : Service) :
  enableMic config = Some false ->
  let r := connect config cbs env s in
  (forall video, ~ In (GetUserMedia video) (effects r)) /\
  (completion r = Normal tt ->
   localStream (state_of r) = localStream s /\
   (localStream s = None -> isMicMuted (state_of r) = true)).
Proof.
  intros Hmic r.
  assert (M : mic_wanted config = false).
  { unfold mic_wanted. rewrite Hmic. reflexivity. }
  destruct (retains_negotiate_without_mic config env M
              (connect_entry config cbs s)) as [Hl Hf].
  assert (E : r = _) by (unfold r; apply connect_run).
  cbv zeta in E. rewrite E.
  rewrite Forall_forall in Hf.
  unfold state_of in Hl. unfold effects in Hf.
  destruct (negotiate_outcome config env) as [e | []];
    unfold completion, state_of, effects; cbn [fst snd].
  - split; [| discriminate].
    intros video H.
    apply in_app_or in H. destruct H as [H | H]; [exact (Hf _ H) |].
    destruct H as [H | H]; [discriminate H |].
    apply in_app_or in H. destruct H as [H | H].
    + destruct (onError cbs); [| exact H].
      destruct H as [H | []]. discriminate H.
    + exact (no_media_request_in_disconnect video _ H).
  - split.
    + intros video H.
      apply in_app_or in H. destruct H as [H | H]; [exact (Hf _ H) |].
      apply in_app_or in H. destruct H as [H | H].
      * destruct (onConnectionStateChange cbs); [| exact H].
        destruct H as [H | []]. discriminate H.
      * destruct H as [H | []]. discriminate H.
    + intros _. unfold isMicMuted.
      cbn [localStream set_connected]. rewrite Hl.
      cbn [localStream connect_entry set_accumulatedBotText set_callbacks
           set_serverUrl].
      split; [reflexivity |].
      intros ->. reflexivity.
Qed.

Lemma connect_without_mic_never_requests_media_witness :
  let r := connect scenario_config_no_mic all_callbacks scenario_env
             new_RTVIVoiceService in
  completion r = Normal tt /\
  ~ In (GetUserMedia false) (effects r) /\
  isMicMuted (state_of r) = true.
Proof.
  intros r.
  destruct (connect_without_mic_never_requests_media scenario_config_no_mic
              all_callbacks scenario_env new_RTVIVoiceService eq_refl)
    as (Hnone & Hkept).
  split; [reflexivity |].
  split; [apply Hnone |].
  apply (Hkept eq_refl). reflexivity.
Defined.

(** ** Instances *)

Lemma message_handling_only_touches_buffer_witness :
  let s := state_of (connect scenario_config all_callbacks scenario_env
                       new_RTVIVoiceService) in
  let r := handleRTVIMessage (fragment "bot-llm-text" "Hi") s in
  state_of r = set_accumulatedBotText "Hi" s /\
  ~ In (OnConnectionStateChange "disconnected") (calls (effects r)).
Proof.
  intros s r.
  destruct (message_handling_only_touches_buffer
              (fragment "bot-llm-text" "Hi") s)
    as (_ & Hstate & _ & _ & _ & Hnever).
  split; [exact Hstate | apply Hnever].
Defined.

Lemma events_release_nothing_witness :
  let s := state_of (connect scenario_config all_callbacks scenario_env
                       new_RTVIVoiceService) in
  let r := fire_all [ EvIceConnectionState "failed";
                      EvConnectionState "failed" ] s in
  connected (state_of r) = false /\
  isMicMuted (state_of r) = false /\
  ~ In (TrackStop "mic") (effects r) /\
  ~ In PeerClose (effects r).
Proof.
  intros s r.
  destruct (events_release_nothing
              [ EvIceConnectionState "failed"; EvConnectionState "failed" ] s)
    as (_ & _ & Hmic & _ & Htracks & Hpeer).
  split; [reflexivity |].
  split; [fold r in Hmic; rewrite Hmic; reflexivity |].
  split; [apply Htracks | exact Hpeer].
Defined.
